(** * Etcher renderer components: a shallow embedding

    The development follows three source files of the GUI:

    - [source-selector.tsx]: the recent-URL cache
      ([normalizeRecentUrlImages], [getRecentUrlImages],
      [setRecentUrlImages], the [URLSelector] submit handler) and the
      [SourceSelector] component ([onSelectImage], [selectImage],
      [selectImageByPath], [getMetadata]);
    - [target-selector.tsx]: [selectAllTargets];
    - [settings.tsx]: [toggleSetting].

    JavaScript values are embedded as an inductive type, exceptions as
    a two-constructor result type, dictionaries and [localStorage] as
    finite maps, and the effects of a component method as a function
    on an explicit record of everything the method can touch. *)

From Stdlib Require Import Ascii.
From stdpp Require Import gmap strings list fin_maps.

Local Open Scope string_scope.
Local Open Scope list_scope.
Local Open Scope nat_scope.
#[local] Set Warnings "-register-all".

(** ** JavaScript values and exceptions *)

(** The values that reach the functions typed [any] in the sources:
    whatever [JSON.parse] can build, and [undefined].  A number is
    kept as its literal; no arithmetic is ever done on one here. *)
Inductive JsValue : Type :=
  | JUndefined
  | JNull
  | JBool (b : bool)
  | JNum (literal : string)
  | JStr (s : string)
  | JArr (elements : list JsValue)
  | JObj (fields : list (string * JsValue)).

(** A thrown [Error]; only its [message] is ever read. *)
Record JsError : Type := mkError { message : string }.

(** The outcome of a call that may throw (or, for an [async] function
    that is awaited, reject). *)
Inductive Exc (A : Type) : Type :=
  | Ok (a : A)
  | Throw (e : JsError).
Arguments Ok {A} a.
Arguments Throw {A} e.

(** Sequencing stops at the first exception; stdpp's [x ← c; k] is
    the notation for it. *)
#[global] Instance exc_ret : MRet Exc := λ A a, Ok a.
#[global] Instance exc_bind : MBind Exc := λ A B k c,
  match c with
  | Ok a => k a
  | Throw e => Throw e
  end.

(** [try { c } catch (e) { h e }] *)
Definition try_catch {A} (c : Exc A) (h : JsError → Exc A) : Exc A :=
  match c with
  | Ok a => Ok a
  | Throw e => h e
  end.

(** ** lodash *)

Module Lodash.

(** [_.isString], on the value domain above. *)
Definition isString (v : JsValue) : bool :=
  match v with
  | JStr _ => true
  | _ => false
  end.

(** [_.isEmpty]: strings and arrays by length, objects by their own
    keys; every other value is empty. *)
Definition isEmpty (v : JsValue) : bool :=
  match v with
  | JStr s => Nat.eqb (String.length s) 0
  | JArr xs => Nat.eqb (length xs) 0
  | JObj fs => Nat.eqb (length fs) 0
  | _ => true
  end.

(** [_.filter(xs, p)] and [_.reject(xs, p)] *)
Definition filter {A} (p : A → bool) (xs : list A) : list A :=
  List.filter p xs.

Definition reject {A} (p : A → bool) (xs : list A) : list A :=
  List.filter (λ x, negb (p x)) xs.

(** [_.includes] on an array of strings. *)
Definition includes (xs : list string) (x : string) : bool :=
  existsb (String.eqb x) xs.

(** [_.uniq]: [baseUniq] walks the array from the left and pushes a
    value onto [result] unless [result] already includes it, so the
    first occurrence of each value is the one that stays. *)
Definition uniq_step (result : list string) (value : string) : list string :=
  if includes result value then result else result ++ [value].

Definition baseUniq (result array : list string) : list string :=
  fold_left uniq_step array result.

Definition uniq (array : list string) : list string := baseUniq [] array.

(** [_.takeRight(array, n)]: [baseSlice(array, max(length - n, 0), length)]. *)
Definition takeRight {A} (n : nat) (array : list A) : list A :=
  drop (length array - n) array.

(** [_.startsWith(string, target)]:
    [string.slice(0, target.length) == target]. *)
Definition startsWith (s target : string) : bool :=
  String.eqb (String.substring 0 (String.length target) s) target.

(** [_.last]: [undefined] on an empty array. *)
Definition last {A} (array : list A) : option A := list.last array.

End Lodash.

(** ** The recent-URL cache of [source-selector.tsx] *)

Definition recentUrlImagesKey : string := "recentUrlImages".

(** The string payload of a string value. *)
Definition asString (v : JsValue) : option string :=
  match v with
  | JStr s => Some s
  | _ => None
  end.

(** [Array.isArray(urls) ? urls : []] *)
Definition arrayOrEmpty (urls : JsValue) : list JsValue :=
  match urls with
  | JArr xs => xs
  | _ => []
  end.

(** After [.filter(_.isString).reject(_.isEmpty)] every element is a
    string value; the rest of the chain, and the declared result type
    [string[]], work on the payloads. *)
Definition normalizeRecentUrlImages (urls : JsValue) : list string :=
  let urls := arrayOrEmpty urls in
  Lodash.takeRight 5
    (Lodash.uniq
       (omap asString
          (Lodash.reject Lodash.isEmpty (Lodash.filter Lodash.isString urls)))).

(** The strings that survive [.filter(_.isString).reject(_.isEmpty)]. *)
Definition nonEmptyStrings (urls : list JsValue) : list string :=
  omap asString
    (Lodash.reject Lodash.isEmpty (Lodash.filter Lodash.isString urls)).

(** A [string[]] seen as a value. *)
Definition ofStrings (urls : list string) : JsValue := JArr (JStr <$> urls).

(** A well-formed list of recent URLs: at most 5 entries, none empty,
    none repeated. *)
Definition wellFormedRecent (urls : list string) : Prop :=
  (length urls ≤ 5)%nat ∧ Forall (λ u, u ≠ "") urls ∧ NoDup urls.

Section RecentUrls.

(** The two built-ins the cache goes through.  [JSON.parse] throws a
    [SyntaxError] on malformed text; [JSON.stringify] is only ever
    applied to an array of strings, where it returns a string. *)
Variable JSON_parse : string → Exc JsValue.
Variable JSON_stringify : list string → string.

(** [localStorage]: string keys, string items; [getItem] of an
    absent key is [null]. *)
Definition getItem (localStorage : gmap string string) (key : string)
  : option string := localStorage !! key.

Definition setItem (localStorage : gmap string string) (key item : string)
  : gmap string string := <[key := item]> localStorage.

(** [item || '[]']: [null] and the empty string are falsy. *)
Definition orEmptyArrayText (item : option string) : string :=
  match item with
  | None => "[]"
  | Some s => if Nat.eqb (String.length s) 0 then "[]" else s
  end.

Definition getRecentUrlImages (localStorage : gmap string string)
  : Exc (list string) :=
  urls ← try_catch
           (JSON_parse (orEmptyArrayText (getItem localStorage recentUrlImagesKey)))
           (λ _, Ok (JArr []));
  Ok (normalizeRecentUrlImages urls).

Definition setRecentUrlImages (urls : list string)
    (localStorage : gmap string string) : gmap string string :=
  setItem localStorage recentUrlImagesKey
    (JSON_stringify (normalizeRecentUrlImages (ofStrings urls))).

(** The [done] handler of [URLSelector], up to the call of the
    [done] property: the list it computes and the storage it leaves. *)
Definition sanitizedRecentUrls (recentImages : list string) (imageURL : string)
  : list string :=
  normalizeRecentUrlImages (ofStrings (recentImages ++ [imageURL])).

Definition URLSelector_done (recentImages : list string) (imageURL : string)
    (localStorage : gmap string string) : gmap string string :=
  setRecentUrlImages (sanitizedRecentUrls recentImages imageURL) localStorage.

End RecentUrls.

(** ** Collaborators of the components

    The components call into modules whose sources are elsewhere: the
    selection state, the etcher SDK, the shared messages and format
    tests, Node's [path].  Each is an interface here; the components
    are embedded over any implementation of it. *)

(** [scanner.adapters.DrivelistDrive], with the fields read here. *)
Record Drive : Type := mkDrive {
  device : string;
  description : string;
  displayName : string;
}.

(** [MBRPartition | GPTPartition] of [partitioninfo]. *)
Inductive Partition : Type :=
  | MBRPartition (offset size type index : Z)
  | GPTPartition (offset size : Z) (type : string) (index : Z) (guid name : string).

(** The result of [getPartitionTable()] when there is a table. *)
Record PartitionTable : Type := mkPartitionTable {
  tableType : string;
  tablePartitions : list Partition;
}.

(** The [sourceDestination] namespace of [etcher-sdk]: the metadata
    of a source, and building a source and asking it for its inner
    source, metadata and partition table.  Every call but the
    constructors can reject. *)
Module sourceDestination.

(** [sourceDestination.Metadata], with the fields read in this file. *)
Record Metadata : Type := mkMetadata {
  name : option string;
  size : option Z;
  logo : option string;
  blockMap : option string;
}.

Class Interface : Type := {
  SourceDestination : Type;
  newFile : string → SourceDestination;
  newHttp : string → SourceDestination;
  getInnerSource : SourceDestination → Exc SourceDestination;
  getMetadata : SourceDestination → Exc Metadata;
  getPartitionTable : SourceDestination → Exc (option PartitionTable);
  close : SourceDestination → Exc ();
}.

End sourceDestination.

(** [SourceMetadata]: the SDK's metadata extended by the source
    selector.  [partitions] and [extension] may be left unset. *)
Record SourceMetadata : Type := mkSourceMetadata {
  sdkMetadata : sourceDestination.Metadata;
  hasMBR : bool;
  partitions : option (list Partition);
  path : string;
  extension : option string;
}.

(** [Source]: one of the three source classes of the SDK. *)
Inductive Source : Type := File | BlockDevice | Http.

#[global] Instance Source_eq_dec : EqDecision Source.
Proof. solve_decision. Defined.

Record SourceOptions : Type := mkSourceOptions {
  imagePath : string;
  SourceType : Source;
}.

(** [shared/errors]: [errors.createUserError({ title, description })] *)
Module errors.

Record UserError : Type := createUserError {
  title : string;
  description : string;
}.

End errors.

(** [SourceSelectorState.warning] *)
Record Warning : Type := mkWarning {
  warningMessage : string;
  warningTitle : option string;
}.

(** What is passed to [analytics.logEvent] and [analytics.logException]. *)
Inductive EventData : Type :=
  | NoData
  | ImageData (image : SourceMetadata)
  | SelectImageData (image : SourceMetadata) (logo blockMap : bool)
  | PathData (path : string)
  | ToggleDriveData (drive : Drive) (previouslySelected : bool)
  | ToggleSettingData (setting : string) (value : option bool) (dangerous : bool).

Inductive AnalyticsEvent : Type :=
  | LogEvent (message : string) (data : EventData)
  | LogException (error : JsError).

(** [models/selection-state]: the shared store of the selected source
    and targets.  Selecting an image goes through the store's own
    validation and may throw. *)
Module selectionState.

Class Interface : Type := {
  Store : Type;
  getSelectedDrives : Store → list Drive;
  isDriveSelected : string → Store → bool;
  selectDrive : string → Store → Store;
  deselectDrive : string → Store → Store;
  getImage : Store → option SourceMetadata;
  selectImage : SourceMetadata → Store → Exc Store;
}.

(** What the components rely on: the list of selected drives shows
    every selected device, [selectDrive] adds a device to the
    selection, [deselectDrive] removes it, and an image the store
    accepted is the selected image. *)
Class Laws `{Interface} : Prop := {
  selected_listed s d :
    isDriveSelected d s = true →
    ∃ drive, drive ∈ getSelectedDrives s ∧ device drive = d;
  isDriveSelected_selectDrive s d d' :
    isDriveSelected d (selectDrive d' s) = true
    ↔ d = d' ∨ isDriveSelected d s = true;
  isDriveSelected_deselectDrive s d d' :
    isDriveSelected d (deselectDrive d' s) = true
    ↔ d ≠ d' ∧ isDriveSelected d s = true;
  getImage_selectImage s s' image :
    selectImage image s = Ok s' → getImage s' = Some image;
}.

End selectionState.

(** [shared/supported-formats], [shared/messages],
    [os/windows-network-drives] and Node's [path]. *)
Module shared.

Class Interface : Type := {
  looksLikeWindowsImage : string → bool;
  warning_looksLikeWindowsImage : string;
  warning_missingPartitionTable : string;
  error_unsupportedProtocol : string;
  error_openImage : string → string → string;
  replaceWindowsNetworkDriveLetter : string → Exc string;
  path_extname : string → string;
  path_basename : string → string;
}.

End shared.

(** Truthiness of a string or [null]: [if (message)]. *)
Definition truthy (message : option string) : bool :=
  match message with
  | None => false
  | Some s => negb (Nat.eqb (String.length s) 0)
  end.

(** [string.slice(1)] *)
Definition slice1 (s : string) : string :=
  match s with
  | EmptyString => EmptyString
  | String _ rest => rest
  end.

(** [Boolean(x)] on an optional string. *)
Definition Boolean (x : option string) : bool := truthy x.

(** [SourceSelectorProps]: what the parent gives the component.  The
    [afterSelected] property is the parent's code: a call of it comes
    back, or throws. *)
Module props.

Class Interface : Type := {
  afterSelected : SourceOptions → Exc ();
}.

End props.

(** ** [source-selector.tsx]: the [SourceSelector] component *)

Module SourceSelector.
Section component.
Context `{selectionState.Interface, sourceDestination.Interface, shared.Interface,
          props.Interface}.

(** Everything a method of the component can read or change: the
    shared selection state, the component's own [warning], and a
    record of each call that leaves the component (error dialogs,
    analytics, the exception reporter, the [afterSelected] property,
    closing a source). *)
Record World : Type := mkWorld {
  selection : selectionState.Store;
  warning : option Warning;
  shownErrors : list errors.UserError;
  analyticsLog : list AnalyticsEvent;
  reported : list JsError;
  afterSelectedCalls : list SourceOptions;
  closedSources : list sourceDestination.SourceDestination;
}.

(** [this.setState({ warning })] *)
Definition setState_warning (warning' : option Warning) (w : World) : World :=
  mkWorld (selection w) warning' (shownErrors w) (analyticsLog w)
    (reported w) (afterSelectedCalls w) (closedSources w).

Definition setSelection (selection' : selectionState.Store) (w : World) : World :=
  mkWorld selection' (warning w) (shownErrors w) (analyticsLog w)
    (reported w) (afterSelectedCalls w) (closedSources w).

(** [osDialog.showError(error)] *)
Definition showError (error : errors.UserError) (w : World) : World :=
  mkWorld (selection w) (warning w) (shownErrors w ++ [error]) (analyticsLog w)
    (reported w) (afterSelectedCalls w) (closedSources w).

(** [analytics.logEvent(message, data)] and [analytics.logException(error)] *)
Definition logEvent (message : string) (data : EventData) (w : World) : World :=
  mkWorld (selection w) (warning w) (shownErrors w)
    (analyticsLog w ++ [LogEvent message data])
    (reported w) (afterSelectedCalls w) (closedSources w).

Definition logException (error : JsError) (w : World) : World :=
  mkWorld (selection w) (warning w) (shownErrors w)
    (analyticsLog w ++ [LogException error])
    (reported w) (afterSelectedCalls w) (closedSources w).

(** [exceptionReporter.report(error)] *)
Definition report (error : JsError) (w : World) : World :=
  mkWorld (selection w) (warning w) (shownErrors w) (analyticsLog w)
    (reported w ++ [error]) (afterSelectedCalls w) (closedSources w).

(** A call of [this.props.afterSelected(options)] is made. *)
Definition afterSelected (options : SourceOptions) (w : World) : World :=
  mkWorld (selection w) (warning w) (shownErrors w) (analyticsLog w)
    (reported w) (afterSelectedCalls w ++ [options]) (closedSources w).

(** [try { await source.close(); } catch (error) { }]: the call is
    made, whatever comes of it is dropped. *)
Definition closeSource (source : sourceDestination.SourceDestination) (w : World)
  : World :=
  let _ := try_catch (sourceDestination.close source) (λ _, Ok ()) in
  mkWorld (selection w) (warning w) (shownErrors w) (analyticsLog w)
    (reported w) (afterSelectedCalls w) (closedSources w ++ [source]).

(** The object literal [onSelectImage] passes on. *)
Definition onSelectImage_options (imagePath : string) : SourceOptions :=
  let isURL :=
    Lodash.startsWith imagePath "https://" || Lodash.startsWith imagePath "http://" in
  {| imagePath := imagePath;
     SourceType := if isURL then Http else File |}.

(** The warning [selectImage] decides on: [message] and [title], both
    [null] when there is nothing to warn about, and the event logged
    on the way. *)
Definition selectImage_warning (image : SourceMetadata) (w : World)
  : option string * option string * World :=
  if shared.looksLikeWindowsImage (path image) then
    (Some shared.warning_looksLikeWindowsImage,
     Some "Possible Windows image detected",
     logEvent "Possibly Windows image" (ImageData image) w)
  else if negb (hasMBR image) then
    (Some shared.warning_missingPartitionTable,
     Some "Missing partition table",
     logEvent "Missing partition table" (ImageData image) w)
  else (None, None, w).

Definition selectImage (image : SourceMetadata) (w : World) : World :=
  let '(message, title, w) := selectImage_warning image w in
  let w :=
    match message with
    | Some text =>
        if truthy message
        then setState_warning (Some (mkWarning text title)) w
        else w
    | None => w
    end in
  match selectionState.selectImage image (selection w) with
  | Ok selection' =>
      logEvent "Select image"
        (SelectImageData image
           (Boolean (sourceDestination.logo (sdkMetadata image)))
           (Boolean (sourceDestination.blockMap (sdkMetadata image))))
        (setSelection selection' w)
  | Throw error => report error w
  end.

Definition getMetadata (source : sourceDestination.SourceDestination)
    (sourcePath : string) : Exc SourceMetadata :=
  metadata ← sourceDestination.getMetadata source;
  partitionTable ← sourceDestination.getPartitionTable source;
  Ok match partitionTable with
     | Some table =>
         {| sdkMetadata := metadata;
            hasMBR := true;
            partitions := Some (tablePartitions table);
            path := sourcePath;
            extension := None |}
     | None =>
         {| sdkMetadata := metadata;
            hasMBR := false;
            partitions := None;
            path := sourcePath;
            extension := None |}
     end.

(** [metadata.extension = path.extname(imagePath).slice(1)] *)
Definition setExtension (imagePath : string) (metadata : SourceMetadata)
  : SourceMetadata :=
  {| sdkMetadata := sdkMetadata metadata;
     hasMBR := hasMBR metadata;
     partitions := partitions metadata;
     path := path metadata;
     extension := Some (slice1 (shared.path_extname imagePath)) |}.

Definition handleError (title sourcePath : string) (error : JsError) (w : World)
  : World :=
  let imageError :=
    errors.createUserError title (shared.error_openImage sourcePath (message error)) in
  logException error (showError imageError w).

(** [try { imagePath = await replaceWindowsNetworkDriveLetter(imagePath); }
    catch (error) { analytics.logException(error); }]: the path the
    method goes on with, and the world after the attempt. *)
Definition resolveImagePath (imagePath : string) (w : World) : string * World :=
  match shared.replaceWindowsNetworkDriveLetter imagePath with
  | Ok imagePath' => (imagePath', w)
  | Throw error => (imagePath, logException error w)
  end.

(** The source built for the path, or [None] where the method shows
    the unsupported-protocol error and returns. *)
Definition openSource (imagePath : string) (SourceType : Source)
  : option sourceDestination.SourceDestination :=
  if decide (SourceType = File) then Some (sourceDestination.newFile imagePath)
  else if negb (Lodash.startsWith imagePath "https://")
          && negb (Lodash.startsWith imagePath "http://")
       then None
       else Some (sourceDestination.newHttp imagePath).

(** [this.props.afterSelected(options)] as the last statement of a
    [try] block whose [catch] is [this.handleError(title, sourcePath,
    error)]: the call is made, and when the property throws, its error
    is handled like any other error of the block. *)
Definition afterSelected_or_handleError (title sourcePath : string)
    (options : SourceOptions) (w : World) : World :=
  let w := afterSelected options w in
  match props.afterSelected options with
  | Ok _ => w
  | Throw error => handleError title sourcePath error w
  end.

Definition selectImageByPath (options : SourceOptions) (w : World) : World :=
  let SourceType := SourceType options in
  let '(imagePath, w) := resolveImagePath (imagePath options) w in
  match openSource imagePath SourceType with
  | None =>
      let invalidImageError :=
        errors.createUserError "Unsupported protocol" shared.error_unsupportedProtocol in
      logEvent "Unsupported protocol" (PathData imagePath)
        (showError invalidImageError w)
  | Some source =>
      let opened :=
        innerSource ← sourceDestination.getInnerSource source;
        metadata ← getMetadata innerSource imagePath;
        Ok (setExtension imagePath metadata) in
      let w :=
        match opened with
        | Ok metadata =>
            afterSelected_or_handleError
              "Error opening image" (shared.path_basename imagePath)
              (mkSourceOptions imagePath SourceType)
              (selectImage metadata w)
        | Throw error =>
            handleError "Error opening image" (shared.path_basename imagePath) error w
        end in
      closeSource source w
  end.

(** What [this] is when a method of the class is called: the
    component, or another object.  The only other object a method is
    ever handed to is the IPC emitter, which calls its listeners with
    itself as [this] and has no method [selectImageByPath]. *)
Inductive Receiver : Type := TheComponent | TheEmitter.

(** [onSelectImage] is an ordinary method: [this] is whatever it is
    called on.  It computes [isURL], builds the options and calls
    [this.selectImageByPath]; on an object without that method the
    call throws a [TypeError] and the method rejects, having done
    nothing to the world. *)
Definition onSelectImage (this : Receiver) (imagePath : string) (w : World)
  : Exc World :=
  let options := onSelectImage_options imagePath in
  match this with
  | TheComponent => Ok (selectImageByPath options w)
  | TheEmitter => Throw (mkError "this.selectImageByPath is not a function")
  end.

(** [ipcRenderer.on('select-image', this.onSelectImage)] in
    [componentDidMount]: the method is registered as it is; the
    constructor binds nothing.  This is the listener a path delivered
    over the channel reaches. *)
Definition selectImageListener (imagePath : string) (w : World) : Exc World :=
  onSelectImage TheEmitter imagePath w.

End component.
End SourceSelector.

(** ** More of [source-selector.tsx]: the flows around [selectImageByPath] *)

(** More of [models/selection-state]: dropping the selected image. *)
Module selectionStateImage.

Class Interface `{selectionState.Interface} : Type := {
  deselectImage : selectionState.Store → selectionState.Store;
}.

End selectionStateImage.

(** [sourceDestination.BlockDevice]: a source made of a drive, with
    its [devicePath] (which may be [null]) and its [device]. *)
Module blockDevice.

Class Interface `{sourceDestination.Interface} : Type := {
  newBlockDevice : Drive → sourceDestination.SourceDestination;
  devicePath : sourceDestination.SourceDestination → option string;
  device : sourceDestination.SourceDestination → string;
}.

End blockDevice.

Module SourceSelectorFlows.
Section flows.
Context `{store : selectionState.Interface, sdk : sourceDestination.Interface,
          platform : shared.Interface, parent : props.Interface}
        `{images : !selectionStateImage.Interface, blocks : !blockDevice.Interface}.
Import SourceSelector.

(** [a || b] on strings, [a] possibly [null] or [undefined]. *)
Definition orElse (a : option string) (b : string) : string :=
  match a with
  | Some text => if truthy a then text else b
  | None => b
  end.

(** [reselectImage]; the data of its event, [{ previousImage }], is
    recorded as that image, or as no data when there was none. *)
Definition reselectImage (w : World) : World :=
  let previousImage :=
    match selectionState.getImage (selection w) with
    | Some image => ImageData image
    | None => NoData
    end in
  let w := logEvent "Reselect image" previousImage w in
  setSelection (selectionStateImage.deselectImage (selection w)) w.

Definition selectDriveAsImage (drive : Drive) (w : World) : World :=
  let source := blockDevice.newBlockDevice drive in
  let devicePath := orElse (blockDevice.devicePath source) (blockDevice.device source) in
  let w :=
    match getMetadata source devicePath with
    | Ok metadata =>
        afterSelected_or_handleError "Error opening drive" devicePath
          (mkSourceOptions devicePath BlockDevice)
          (selectImage metadata w)
    | Throw error => handleError "Error opening drive" devicePath error w
    end in
  closeSource source w.

(** The component as a whole: the world of its methods and the three
    flags of its state that open and close its dialogs. *)
Record View : Type := mkView {
  world : World;
  showImageDetails : bool;
  showURLSelector : bool;
  showDriveSelector : bool;
}.

Definition withWorld (w : World) (v : View) : View :=
  mkView w (showImageDetails v) (showURLSelector v) (showDriveSelector v).

Definition setShowURLSelector (flag : bool) (v : View) : View :=
  mkView (world v) (showImageDetails v) flag (showDriveSelector v).

Definition setShowDriveSelector (flag : bool) (v : View) : View :=
  mkView (world v) (showImageDetails v) (showURLSelector v) flag.

(** [openImageSelector], given what [osDialog.selectImage()] comes
    back with: a path, nothing, or a rejection. *)
Definition openImageSelector (picked : Exc (option string)) (v : View) : View :=
  let w := logEvent "Open image selector" NoData (world v) in
  let w :=
    match picked with
    | Ok imagePath =>
        if negb (truthy imagePath)
        then logEvent "Image selector closed" NoData w
        else selectImageByPath (mkSourceOptions (default "" imagePath) File) w
    | Throw error => report error w
    end in
  withWorld w v.

(** [onDrop], given the paths of the dropped files. *)
Definition onDrop (files : list string) (v : View) : View :=
  match files with
  | file :: _ => withWorld (selectImageByPath (mkSourceOptions file File) (world v)) v
  | [] => v
  end.

Definition openURLSelector (v : View) : View :=
  setShowURLSelector true
    (withWorld (logEvent "Open image URL selector" NoData (world v)) v).

Definition openDriveSelector (v : View) : View :=
  setShowDriveSelector true
    (withWorld (logEvent "Open drive selector" NoData (world v)) v).

(** The [cancel] and [done] properties [render] gives the warning
    dialog. *)
Definition warningCancel (v : View) : View :=
  withWorld (reselectImage (setState_warning None (world v))) v.

Definition warningDone (v : View) : View :=
  withWorld (setState_warning None (world v)) v.

(** The [done] property [render] gives the [URLSelector]. *)
Definition urlSelectorDone (imageURL : string) (v : View) : View :=
  if negb (truthy (Some imageURL)) then
    setShowURLSelector false
      (withWorld (logEvent "URL selector closed" NoData (world v)) v)
  else
    setShowURLSelector false
      (withWorld
         (selectImageByPath (mkSourceOptions imageURL Http) (world v)) v).

(** The [done] property [render] gives the source [DriveSelector]. *)
Definition driveSelectorDone (drives : list Drive) (v : View) : View :=
  match drives with
  | [] =>
      setShowDriveSelector false
        (withWorld (logEvent "Drive selector closed" NoData (world v)) v)
  | drive :: _ =>
      setShowDriveSelector false
        (withWorld (selectDriveAsImage drive (world v)) v)
  end.

(** Pressing the primary button of the [URLSelector]: its own [done]
    handler stores the sanitized list, then calls the [done] property. *)
Definition URLSelector_submit (JSON_stringify : list string → string)
    (recentImages : list string) (imageURL : string)
    (localStorage : gmap string string) (v : View)
  : gmap string string * View :=
  (URLSelector_done JSON_stringify recentImages imageURL localStorage,
   urlSelectorDone imageURL v).

End flows.
End SourceSelectorFlows.

(** ** [target-selector.tsx] *)

Module TargetSelector.
Section component.
Context `{selectionState.Interface}.

Record World : Type := mkWorld {
  selection : selectionState.Store;
  analyticsLog : list AnalyticsEvent;
}.

Definition logEvent (message : string) (data : EventData) (w : World) : World :=
  mkWorld (selection w) (analyticsLog w ++ [LogEvent message data]).

Definition deselectDrive (device : string) (w : World) : World :=
  mkWorld (selectionState.deselectDrive device (selection w)) (analyticsLog w).

Definition selectDrive (device : string) (w : World) : World :=
  mkWorld (selectionState.selectDrive device (selection w)) (analyticsLog w).

(** [modalTargets.find((modalTarget) => modalTarget.device === drive.device)] *)
Definition findTarget (modalTargets : list Drive) (drive : Drive) : option Drive :=
  List.find (λ modalTarget, String.eqb (device modalTarget) (device drive)) modalTargets.

(** The body of the first [forEach]. *)
Definition deselectOne (w : World) (drive : Drive) : World :=
  deselectDrive (device drive)
    (logEvent "Toggle drive" (ToggleDriveData drive true) w).

(** The body of the second [forEach]. *)
Definition selectOne (w : World) (drive : Drive) : World :=
  let w :=
    if negb (selectionState.isDriveSelected (device drive) (selection w))
    then logEvent "Toggle drive" (ToggleDriveData drive false) w
    else w in
  selectDrive (device drive) w.

Definition selectAllTargets (modalTargets : list Drive) (w : World) : World :=
  let selectedDrivesFromState := selectionState.getSelectedDrives (selection w) in
  let deselected :=
    List.filter (λ drive, negb (bool_decide (is_Some (findTarget modalTargets drive))))
      selectedDrivesFromState in
  let w := fold_left deselectOne deselected w in
  fold_left selectOne modalTargets w.

End component.
End TargetSelector.

(** ** [settings.tsx] *)

Module Settings.

(** [Setting['options']] *)
Record SettingOptions : Type := mkSettingOptions {
  optionsDescription : string;
  confirmLabel : string;
}.

(** Modelled from the spec: [models/settings] is a key-value settings
    store of boolean toggles; [settings.set(key, value)] writes [value]
    at [key] and leaves the other keys as they are. *)
Definition settings_set (key : string) (value : bool)
    (store : gmap string bool) : gmap string bool :=
  <[key := value]> store.

(** The settings store, the component's [currentSettings] (a
    dictionary of booleans), and the analytics log. *)
Record World : Type := mkWorld {
  settingsStore : gmap string bool;
  currentSettings : gmap string bool;
  analyticsLog : list AnalyticsEvent;
}.

(** [!value], where [value] is a boolean or [undefined]. *)
Definition not_value (value : option bool) : bool :=
  match value with
  | Some b => negb b
  | None => true
  end.

Definition toggleSetting (setting : string) (options : option SettingOptions)
    (w : World) : World :=
  let value := currentSettings w !! setting in
  let dangerous := bool_decide (is_Some options) in
  let analyticsLog' :=
    analyticsLog w
    ++ [LogEvent "Toggle setting" (ToggleSettingData setting value dangerous)] in
  let settingsStore' := settings_set setting (not_value value) (settingsStore w) in
  let currentSettings' := <[setting := not_value value]> (currentSettings w) in
  mkWorld settingsStore' currentSettings' analyticsLog'.

End Settings.

(** ** More of [target-selector.tsx]: the label of the selected drives *)

Module TargetSelectorLabel.
Section label.
Context `{selectionState.Interface}.

Definition newline : string := String (ascii_of_nat 10) "".

(** [`${drive.description} (${drive.displayName})`] *)
Definition driveLabel (drive : Drive) : string :=
  description drive +:+ " (" +:+ displayName drive +:+ ")".

(** [getSelectedDrives().map(...).join('\n')] *)
Definition getDriveListLabel (s : selectionState.Store) : string :=
  String.concat newline (driveLabel <$> selectionState.getSelectedDrives s).

End label.
End TargetSelectorLabel.

(** ** More of [settings.tsx]: a toggle over time

    [toggleSetting] is [async]: it reads the value, logs, calls
    [settings.set] and awaits it; only then does it call
    [setCurrentSettings].  The dictionary it reads and spreads is the
    [currentSettings] of the render that created it, so a toggle that
    is started while another is still awaited works on the same
    dictionary as that one. *)

Module SettingsModal.
Import Settings.

(** A toggle that has called [settings.set] and awaits it: the
    [currentSettings] of its render, and its setting. *)
Record Pending : Type := mkPending {
  captured : gmap string bool;
  pendingSetting : string;
}.

(** The dialog: its world and the toggles that are awaited. *)
Record Dialog : Type := mkDialog {
  world : World;
  inFlight : list Pending;
}.

(** A click: [toggleSetting] of the latest render runs up to its
    [await]. *)
Definition started (setting : string) (options : option SettingOptions)
    (d : Dialog) : Dialog :=
  let w := world d in
  let value := currentSettings w !! setting in
  let dangerous := bool_decide (is_Some options) in
  let analyticsLog' :=
    analyticsLog w
    ++ [LogEvent "Toggle setting" (ToggleSettingData setting value dangerous)] in
  let settingsStore' := settings_set setting (not_value value) (settingsStore w) in
  mkDialog (mkWorld settingsStore' (currentSettings w) analyticsLog')
    (inFlight d ++ [mkPending (currentSettings w) setting]).

(** The [await] of the [n]-th awaited toggle is over:
    [setCurrentSettings({ ...currentSettings, [setting]: !value })],
    with the dictionary and the value of its own render. *)
Definition settled (n : nat) (d : Dialog) : Dialog :=
  match inFlight d !! n with
  | Some toggle =>
      let setting := pendingSetting toggle in
      let value := captured toggle !! setting in
      let w := world d in
      mkDialog
        (mkWorld (settingsStore w)
           (<[setting := not_value value]> (captured toggle))
           (analyticsLog w))
        (delete n (inFlight d))
  | None => d
  end.

Inductive Action : Type :=
  | Clicked (setting : string) (options : option SettingOptions)
  | Settled (n : nat).

Definition step (d : Dialog) (action : Action) : Dialog :=
  match action with
  | Clicked setting options => started setting options d
  | Settled n => settled n d
  end.

Definition run (actions : list Action) (d : Dialog) : Dialog :=
  fold_left step actions d.

(** Toggles made one after the other, each awaited to its end before
    the next click. *)
Definition oneByOne (toggles : list (string * option SettingOptions))
  : list Action :=
  flat_map (λ toggle, [Clicked toggle.1 toggle.2; Settled 0]) toggles.

End SettingsModal.

(** ** Implementations of the interfaces, to run the components on *)

(** Modelled from the spec: the selection state holds the currently
    selected source and the selected targets.  Here it accepts every
    image that has a path. *)
Module ReferenceStore.

Record State : Type := mkState {
  image : option SourceMetadata;
  drives : list Drive;
}.

Definition isDriveSelected (d : string) (s : State) : bool :=
  existsb (λ drive, String.eqb (device drive) d) (drives s).

Definition selectDrive (d : string) (s : State) : State :=
  if isDriveSelected d s then s
  else mkState (image s) (drives s ++ [mkDrive d "" d]).

Definition deselectDrive (d : string) (s : State) : State :=
  mkState (image s)
    (List.filter (λ drive, negb (String.eqb (device drive) d)) (drives s)).

Definition selectImage (img : SourceMetadata) (s : State) : Exc State :=
  if String.eqb (path img) "" then Throw (mkError "Invalid image path")
  else Ok (mkState (Some img) (drives s)).

Definition interface : selectionState.Interface :=
  {| selectionState.Store := State;
     selectionState.getSelectedDrives := drives;
     selectionState.isDriveSelected := isDriveSelected;
     selectionState.selectDrive := selectDrive;
     selectionState.deselectDrive := deselectDrive;
     selectionState.getImage := image;
     selectionState.selectImage := selectImage |}.

End ReferenceStore.

(** An SDK over three known paths: an image with an MBR, a raw image
    without a partition table, and a path that cannot be opened. *)
Module SampleSdk.

Definition getInnerSource (source : string) : Exc string :=
  if String.eqb source "/images/missing.img"
  then Throw (mkError "ENOENT: no such file or directory")
  else Ok source.

Definition getMetadata (source : string) : Exc sourceDestination.Metadata :=
  Ok (sourceDestination.mkMetadata (Some source) (Some 4194304%Z) None None).

Definition getPartitionTable (source : string) : Exc (option PartitionTable) :=
  if String.eqb source "/images/raw.bin" then Ok None
  else Ok (Some (mkPartitionTable "mbr" [MBRPartition 2048 8190 131 1])).

Definition interface : sourceDestination.Interface :=
  {| sourceDestination.SourceDestination := string;
     sourceDestination.newFile := λ path, path;
     sourceDestination.newHttp := λ url, url;
     sourceDestination.getInnerSource := getInnerSource;
     sourceDestination.getMetadata := getMetadata;
     sourceDestination.getPartitionTable := getPartitionTable;
     sourceDestination.close := λ _, Ok () |}.

End SampleSdk.

(** A platform without network drives, whose Windows test looks for
    the word in the path. *)
Module SamplePlatform.

Definition looksLikeWindowsImage (imagePath : string) : bool :=
  bool_decide (is_Some (String.index 0 "windows" imagePath)).

(** The part of a list of characters after the last [sep], and
    whether there was a [sep] at all. *)
Fixpoint afterLast (sep : ascii) (s : list ascii) : list ascii * bool :=
  match s with
  | [] => ([], false)
  | c :: rest =>
      let '(tail, found) := afterLast sep rest in
      if found then (tail, true)
      else if Ascii.eqb c sep then (rest, true)
      else (c :: tail, false)
  end.

Definition path_basename (p : string) : string :=
  String.string_of_list_ascii (afterLast "/"%char (String.list_ascii_of_string p)).1.

Definition path_extname (p : string) : string :=
  let '(ext, found) := afterLast "."%char (String.list_ascii_of_string (path_basename p)) in
  if found then String "."%char (String.string_of_list_ascii ext) else "".

Definition interface : shared.Interface :=
  {| shared.looksLikeWindowsImage := looksLikeWindowsImage;
     shared.warning_looksLikeWindowsImage :=
       "It looks like you are trying to burn a Windows image.";
     shared.warning_missingPartitionTable :=
       "It looks like this is not a bootable image.";
     shared.error_unsupportedProtocol :=
       "Only http:// and https:// URLs are supported.";
     shared.error_openImage := λ imageBasename errorMessage,
       "Something went wrong while opening " +:+ imageBasename
       +:+ ": " +:+ errorMessage;
     shared.replaceWindowsNetworkDriveLetter := λ imagePath, Ok imagePath;
     shared.path_extname := path_extname;
     shared.path_basename := path_basename |}.

End SamplePlatform.

(** The reference store drops the image and keeps the drives. *)
Module SampleImages.

Definition deselectImage (s : ReferenceStore.State) : ReferenceStore.State :=
  ReferenceStore.mkState None (ReferenceStore.drives s).

Definition interface : @selectionStateImage.Interface ReferenceStore.interface :=
  @selectionStateImage.Build_Interface ReferenceStore.interface deselectImage.

End SampleImages.

(** Block devices of the sample SDK: the source of a drive is its
    device; one drive has a device path of its own. *)
Module SampleBlockDevice.

Definition devicePath (source : string) : option string :=
  if String.eqb source "/dev/sdb" then Some "/dev/disk/by-id/usb-Kingston" else None.

Definition interface : @blockDevice.Interface SampleSdk.interface :=
  @blockDevice.Build_Interface SampleSdk.interface
    (λ drive, device drive) devicePath (λ source, source).

End SampleBlockDevice.

(** A parent whose [afterSelected] comes back, and one whose
    [afterSelected] throws. *)
Module SampleParent.

Definition interface : props.Interface :=
  {| props.afterSelected := λ _, Ok () |}.

Definition failing : props.Interface :=
  {| props.afterSelected := λ _, Throw (mkError "Cannot read property of undefined") |}.

End SampleParent.

(** Worlds and images to run the components on. *)
Section Samples.
Existing Instance ReferenceStore.interface.
Existing Instance SampleSdk.interface.
Existing Instance SamplePlatform.interface.
Existing Instance SampleParent.interface.

(** A source selector at rest: nothing selected, nothing shown. *)
Definition idleSelector : SourceSelector.World :=
  SourceSelector.mkWorld (ReferenceStore.mkState None []) None [] [] [] [] [].

Definition mbrImage : SourceMetadata :=
  mkSourceMetadata
    (sourceDestination.mkMetadata (Some "/images/debian.img") (Some 4194304%Z) None None)
    true (Some [MBRPartition 2048 8190 131 1]) "/images/debian.img" (Some "img").

Definition rawImage : SourceMetadata :=
  mkSourceMetadata
    (sourceDestination.mkMetadata (Some "/images/raw.bin") (Some 4194304%Z) None None)
    false None "/images/raw.bin" (Some "bin").

Definition windowsImage : SourceMetadata :=
  mkSourceMetadata
    (sourceDestination.mkMetadata (Some "/images/windows10.iso") (Some 4194304%Z) None None)
    false None "/images/windows10.iso" (Some "iso").

(** Two drives selected, and a dialog that comes back with the second
    of them and a third. *)
Definition twoSelected : @TargetSelector.World ReferenceStore.interface :=
  TargetSelector.mkWorld
    (ReferenceStore.mkState None
       [mkDrive "/dev/sda" "SanDisk" "/dev/sda"; mkDrive "/dev/sdb" "Kingston" "/dev/sdb"])
    [].

Definition pickedTargets : list Drive :=
  [mkDrive "/dev/sdb" "Kingston" "/dev/sdb"; mkDrive "/dev/sdc" "Samsung" "/dev/sdc"].

(** An image without a path, which the reference store refuses. *)
Definition noPathImage : SourceMetadata :=
  mkSourceMetadata (sourceDestination.mkMetadata None None None None)
    false None "" None.

(** The component with the URL selector open. *)
Definition urlSelectorOpen : SourceSelectorFlows.View :=
  SourceSelectorFlows.mkView idleSelector false true false.

End Samples.

(** A reader and a writer for the JSON text of an array of strings
    that need no escaping, to run the cache on. *)
Module SampleJson.

Definition dquote : ascii := ascii_of_nat 34.

Definition quote (s : string) : string :=
  String dquote (s +:+ String dquote "").

Definition stringify (urls : list string) : string :=
  "[" +:+ String.concat "," (quote <$> urls) +:+ "]".

Inductive ReaderState : Type :=
  | AtStart
  | InString (reversed : list ascii)
  | AfterString
  | AfterComma.

Fixpoint readArray (state : ReaderState) (read : list string) (text : list ascii)
  : option (list string) :=
  match text with
  | [] => None
  | c :: rest =>
      match state with
      | AtStart =>
          if Ascii.eqb c "]" then match rest with [] => Some read | _ => None end
          else if Ascii.eqb c dquote then readArray (InString []) read rest
          else None
      | InString reversed =>
          if Ascii.eqb c dquote
          then readArray AfterString
                 (read ++ [String.string_of_list_ascii (rev reversed)]) rest
          else readArray (InString (c :: reversed)) read rest
      | AfterString =>
          if Ascii.eqb c "," then readArray AfterComma read rest
          else if Ascii.eqb c "]" then match rest with [] => Some read | _ => None end
          else None
      | AfterComma =>
          if Ascii.eqb c dquote then readArray (InString []) read rest else None
      end
  end.

Definition parse (text : string) : Exc JsValue :=
  match String.list_ascii_of_string text with
  | c :: rest =>
      if Ascii.eqb c "["
      then match readArray AtStart [] rest with
           | Some urls => Ok (ofStrings urls)
           | None => Throw (mkError "Unexpected token in JSON")
           end
      else Throw (mkError "Unexpected token in JSON")
  | [] => Throw (mkError "Unexpected end of JSON input")
  end.

End SampleJson.

(** ** Notions used to state the properties *)


(** [s] starts with [target]: it is [target] followed by something. *)
Definition startsWithText (s target : string) : Prop :=
  ∃ rest : string, s = target +:+ rest.

(** The devices of a list of drives. *)
Definition devices (drives : list Drive) : list string := device <$> drives.

(** What [selectImageByPath] gets out of an opened source: the
    metadata of its inner source, with the extension of the path. *)
Definition openedMetadata `{sourceDestination.Interface, shared.Interface}
    (source : sourceDestination.SourceDestination) (imagePath : string)
  : Exc SourceMetadata :=
  innerSource ← sourceDestination.getInnerSource source;
  metadata ← SourceSelector.getMetadata innerSource imagePath;
  Ok (SourceSelector.setExtension imagePath metadata).

(** The event logged for a drive that is switched. *)
Definition toggled (previouslySelected : bool) (drive : Drive) : AnalyticsEvent :=
  LogEvent "Toggle drive" (ToggleDriveData drive previouslySelected).

(** The sources a call has to close: the one it opened, if any. *)
Definition opened {A} (source : option A) : list A :=
  match source with
  | Some s => [s]
  | None => []
  end.

(** ** Facts about the lodash functions *)

Module LodashFacts.
Import Lodash.

Lemma includes_elem_of (xs : list string) (x : string) :
  includes xs x = true ↔ x ∈ xs.
Proof.
  unfold includes. rewrite existsb_exists. split.
  - intros (y & Hy & Heq). apply String.eqb_eq in Heq. subst y.
    by apply list_elem_of_In.
  - intros Hx. exists x. split; [by apply list_elem_of_In | apply String.eqb_refl].
Qed.

Lemma includes_false (xs : list string) (x : string) :
  includes xs x = false ↔ x ∉ xs.
Proof.
  rewrite <- includes_elem_of. destruct (includes xs x); split; congruence.
Qed.

Lemma elem_of_baseUniq (array result : list string) (x : string) :
  x ∈ baseUniq result array ↔ x ∈ result ∨ x ∈ array.
Proof.
  unfold baseUniq. revert result.
  induction array as [|v array IH]; intros result; simpl.
  - rewrite elem_of_nil. tauto.
  - rewrite IH, elem_of_cons. unfold uniq_step.
    destruct (includes result v) eqn:E.
    + apply includes_elem_of in E. split; [tauto|].
      intros [Hr|[->|Ha]]; auto.
    + rewrite elem_of_app, list_elem_of_singleton. tauto.
Qed.

Lemma NoDup_baseUniq (array result : list string) :
  NoDup result → NoDup (baseUniq result array).
Proof.
  unfold baseUniq. revert result.
  induction array as [|v array IH]; intros result Hnd; simpl; [done|].
  apply IH. unfold uniq_step.
  destruct (includes result v) eqn:E; [done|].
  apply includes_false in E.
  apply NoDup_app. split_and!; [done| |apply NoDup_singleton].
  intros y Hy Hv. apply list_elem_of_singleton in Hv. by subst y.
Qed.

(** On an array that repeats nothing, and nothing of [result],
    [baseUniq] pushes every value. *)
Lemma baseUniq_NoDup_app (array result : list string) :
  NoDup (result ++ array) → baseUniq result array = result ++ array.
Proof.
  unfold baseUniq. revert result.
  induction array as [|v array IH]; intros result Hnd; simpl.
  - by rewrite app_nil_r.
  - assert (Hv : includes result v = false).
    { apply includes_false. apply NoDup_app in Hnd as (_ & Hdisj & _).
      intros Hin. apply (Hdisj v Hin). by left. }
    unfold uniq_step at 2. rewrite Hv.
    rewrite IH; rewrite <- app_assoc; simpl; done.
Qed.

Lemma elem_of_uniq (array : list string) (x : string) :
  x ∈ uniq array ↔ x ∈ array.
Proof. unfold uniq. rewrite elem_of_baseUniq, elem_of_nil. tauto. Qed.

Lemma NoDup_uniq (array : list string) : NoDup (uniq array).
Proof. apply NoDup_baseUniq, NoDup_nil_2. Qed.

Lemma uniq_NoDup (array : list string) : NoDup array → uniq array = array.
Proof. intros Hnd. unfold uniq. by rewrite baseUniq_NoDup_app. Qed.

Lemma length_takeRight {A} (n : nat) (array : list A) :
  (length (takeRight n array) ≤ n)%nat.
Proof. unfold takeRight. rewrite length_drop. lia. Qed.

Lemma takeRight_sublist {A} (n : nat) (array : list A) :
  takeRight n array `sublist_of` array.
Proof. apply sublist_drop. Qed.

Lemma takeRight_short {A} (n : nat) (array : list A) :
  (length array ≤ n)%nat → takeRight n array = array.
Proof.
  intros Hle. unfold takeRight.
  replace (length array - n)%nat with 0%nat by lia. done.
Qed.

(** [takeRight] keeps the right end: it never drops the last entry. *)
Lemma last_takeRight {A} (n : nat) (array : list A) :
  (0 < n)%nat → last (takeRight n array) = last array.
Proof.
  intros Hn. unfold last, takeRight.
  rewrite !last_lookup, lookup_drop, length_drop. f_equal. lia.
Qed.

(** [startsWith] is the prefix test of the standard library. *)
Lemma startsWith_prefix (s target : string) :
  startsWith s target = String.prefix target s.
Proof.
  unfold startsWith. revert s.
  induction target as [|c target IH]; intros s; simpl.
  - by destruct s.
  - destruct s as [|d s]; simpl; [done|].
    rewrite <- IH. destruct (Ascii.ascii_dec c d) as [->|Hne].
    + by rewrite Ascii.eqb_refl.
    + apply Ascii.eqb_neq in Hne. rewrite Ascii.eqb_sym in Hne. by rewrite Hne.
Qed.

End LodashFacts.

(** ** The recent-URL cache: auxiliary facts *)

Section RecentUrlFacts.
Import Lodash LodashFacts.

(** Projecting to the payloads loses nothing: the filtered array is
    made of exactly these strings. *)
Lemma nonEmptyStrings_values (urls : list JsValue) :
  JStr <$> nonEmptyStrings urls = reject isEmpty (filter isString urls).
Proof.
  unfold nonEmptyStrings, reject, filter.
  induction urls as [|v urls IH]; simpl; [done|].
  destruct v; simpl; try done.
  destruct (String.length s) eqn:E; simpl; [done|].
  f_equal. exact IH.
Qed.

Lemma nonEmptyStrings_nonempty (urls : list JsValue) :
  Forall (λ u, u ≠ "") (nonEmptyStrings urls).
Proof.
  unfold nonEmptyStrings, reject, filter.
  induction urls as [|v urls IH]; simpl; [constructor|].
  destruct v; simpl; try done.
  destruct s as [|c s]; simpl; [done|].
  constructor; [discriminate | done].
Qed.

Lemma nonEmptyStrings_ofStrings (urls : list string) :
  Forall (λ u, u ≠ "") urls → nonEmptyStrings (JStr <$> urls) = urls.
Proof.
  unfold nonEmptyStrings, reject, filter.
  induction 1 as [|u urls Hu _ IH]; simpl; [done|].
  destruct u as [|c u]; [done|]. simpl. f_equal. exact IH.
Qed.

Lemma normalizeRecentUrlImages_unfold (urls : JsValue) :
  normalizeRecentUrlImages urls
  = takeRight 5 (uniq (nonEmptyStrings (arrayOrEmpty urls))).
Proof. reflexivity. Qed.

Lemma normalizeRecentUrlImages_wellFormed (urls : JsValue) :
  wellFormedRecent (normalizeRecentUrlImages urls).
Proof.
  rewrite normalizeRecentUrlImages_unfold.
  split_and!.
  - apply length_takeRight.
  - apply Forall_drop. apply Forall_forall. intros u Hu.
    rewrite elem_of_uniq in Hu.
    pose proof (nonEmptyStrings_nonempty (arrayOrEmpty urls)) as Hne.
    rewrite Forall_forall in Hne. apply Hne, Hu.
  - eapply sublist_NoDup; [apply NoDup_uniq | apply takeRight_sublist].
Qed.

(** A well-formed list is a fixed point of the normalisation. *)
Lemma normalizeRecentUrlImages_fixed (urls : list string) :
  wellFormedRecent urls → normalizeRecentUrlImages (ofStrings urls) = urls.
Proof.
  intros (Hlen & Hne & Hnd).
  rewrite normalizeRecentUrlImages_unfold. simpl.
  rewrite nonEmptyStrings_ofStrings, uniq_NoDup by done.
  by apply takeRight_short.
Qed.

(** Appending a value that [result] already holds does not change
    what [baseUniq] returns. *)
Lemma uniq_snoc_present (array : list string) (u : string) :
  u ∈ array → uniq (array ++ [u]) = uniq array.
Proof.
  intros Hu. unfold uniq, baseUniq. rewrite fold_left_app. simpl.
  unfold uniq_step at 1.
  replace (includes _ u) with true; [done|].
  symmetry. apply includes_elem_of.
  change (u ∈ uniq array). by apply elem_of_uniq.
Qed.

(** Appending a value that is new puts it at the right end. *)
Lemma uniq_snoc_fresh (array : list string) (u : string) :
  u ∉ array → uniq (array ++ [u]) = uniq array ++ [u].
Proof.
  intros Hu. unfold uniq, baseUniq. rewrite fold_left_app. simpl.
  unfold uniq_step at 1.
  replace (includes _ u) with false; [done|].
  symmetry. apply includes_false.
  change (u ∉ uniq array). by rewrite elem_of_uniq.
Qed.

End RecentUrlFacts.

(** ** The recent-URL cache: what is read, written and kept *)

Section RecentUrlCache.
Import Lodash LodashFacts.

Variable JSON_parse : string → Exc JsValue.
Variable JSON_stringify : list string → string.

(** Reading never throws: a parse failure is caught and read as the
    empty array. *)
Lemma getRecentUrlImages_Ok (localStorage : gmap string string) :
  ∃ urls,
    try_catch
      (JSON_parse (orEmptyArrayText (getItem localStorage recentUrlImagesKey)))
      (λ _, Ok (JArr [])) = Ok urls
    ∧ getRecentUrlImages JSON_parse localStorage = Ok (normalizeRecentUrlImages urls).
Proof.
  unfold getRecentUrlImages.
  destruct (JSON_parse _) as [v|e]; simpl; eauto.
Qed.

Lemma getRecentUrlImages_wellFormed (localStorage : gmap string string)
    (recentImages : list string) :
  getRecentUrlImages JSON_parse localStorage = Ok recentImages →
  wellFormedRecent recentImages.
Proof.
  destruct (getRecentUrlImages_Ok localStorage) as (urls & _ & ->).
  intros [= <-]. apply normalizeRecentUrlImages_wellFormed.
Qed.

(** The three ways the stored item can be unusable: no item (or an
    empty one) reads as the text of the empty array; text that does
    not parse, and text that parses to something other than an array,
    both give the empty list. *)
Lemma orEmptyArrayText_absent (localStorage : gmap string string) :
  getItem localStorage recentUrlImagesKey = None
  ∨ getItem localStorage recentUrlImagesKey = Some "" →
  orEmptyArrayText (getItem localStorage recentUrlImagesKey) = "[]".
Proof. by intros [-> | ->]. Qed.

Lemma getRecentUrlImages_malformed (localStorage : gmap string string)
    (e : JsError) :
  JSON_parse (orEmptyArrayText (getItem localStorage recentUrlImagesKey)) = Throw e →
  getRecentUrlImages JSON_parse localStorage = Ok [].
Proof. unfold getRecentUrlImages. by intros ->. Qed.

Lemma getRecentUrlImages_not_array (localStorage : gmap string string)
    (parsed : JsValue) :
  JSON_parse (orEmptyArrayText (getItem localStorage recentUrlImagesKey)) = Ok parsed →
  (∀ elements, parsed ≠ JArr elements) →
  getRecentUrlImages JSON_parse localStorage = Ok [].
Proof.
  unfold getRecentUrlImages. intros -> Hnot. simpl.
  destruct parsed; try reflexivity. by destruct (Hnot elements).
Qed.

(** What [setRecentUrlImages] leaves under the key. *)
Lemma getItem_setRecentUrlImages (urls : list string)
    (localStorage : gmap string string) :
  getItem (setRecentUrlImages JSON_stringify urls localStorage) recentUrlImagesKey
  = Some (JSON_stringify (normalizeRecentUrlImages (ofStrings urls))).
Proof. unfold setRecentUrlImages, setItem, getItem. apply lookup_insert_eq. Qed.

(** The other items of [localStorage] are not touched. *)
Lemma getItem_setRecentUrlImages_other (urls : list string)
    (localStorage : gmap string string) (key : string) :
  key ≠ recentUrlImagesKey →
  getItem (setRecentUrlImages JSON_stringify urls localStorage) key
  = getItem localStorage key.
Proof.
  intros Hkey. unfold setRecentUrlImages, setItem, getItem.
  by apply lookup_insert_ne.
Qed.

(** Submitting a URL the list already holds changes nothing. *)
Lemma sanitizedRecentUrls_present (recentImages : list string) (imageURL : string) :
  wellFormedRecent recentImages →
  imageURL ∈ recentImages →
  sanitizedRecentUrls recentImages imageURL = recentImages.
Proof.
  intros Hwf Hin. pose proof Hwf as (Hlen & Hne & Hnd).
  unfold sanitizedRecentUrls. rewrite normalizeRecentUrlImages_unfold. simpl.
  rewrite nonEmptyStrings_ofStrings.
  - rewrite uniq_snoc_present, uniq_NoDup by done. by apply takeRight_short.
  - apply Forall_app. split; [done|]. constructor; [|constructor].
    rewrite Forall_forall in Hne. by apply Hne.
Qed.

(** Submitting a new, non-empty URL puts it at the right end, the end
    [takeRight] keeps. *)
Lemma sanitizedRecentUrls_fresh_last (recentImages : list string) (imageURL : string) :
  wellFormedRecent recentImages →
  imageURL ≠ "" →
  imageURL ∉ recentImages →
  last (sanitizedRecentUrls recentImages imageURL) = Some imageURL.
Proof.
  intros (Hlen & Hne & Hnd) Hurl Hfresh.
  unfold sanitizedRecentUrls. rewrite normalizeRecentUrlImages_unfold. simpl.
  rewrite nonEmptyStrings_ofStrings.
  - rewrite uniq_snoc_fresh, last_takeRight by (done || lia).
    unfold last. apply last_snoc.
  - apply Forall_app. split; [done|]. by constructor.
Qed.

(** With the list full, a new URL pushes out the leftmost entry,
    also when that entry is the one that was submitted last. *)
Lemma sanitizedRecentUrls_evicts_reused (reused : string) (others : list string)
    (imageURL : string) :
  wellFormedRecent (reused :: others) →
  length others = 4 →
  imageURL ≠ "" →
  imageURL ∉ reused :: others →
  sanitizedRecentUrls (sanitizedRecentUrls (reused :: others) reused) imageURL
  = others ++ [imageURL].
Proof.
  intros Hwf Hlen Hurl Hfresh.
  rewrite (sanitizedRecentUrls_present (reused :: others) reused)
    by (done || apply list_elem_of_here).
  destruct Hwf as (_ & Hne & Hnd).
  unfold sanitizedRecentUrls. rewrite normalizeRecentUrlImages_unfold.
  change (arrayOrEmpty (ofStrings ((reused :: others) ++ [imageURL])))
    with (JStr <$> (reused :: others) ++ [imageURL]).
  rewrite nonEmptyStrings_ofStrings.
  - rewrite uniq_snoc_fresh, uniq_NoDup by done.
    unfold takeRight. rewrite length_app. simpl. by rewrite Hlen.
  - apply Forall_app. split; [done|]. by constructor.
Qed.

End RecentUrlCache.

(** C1. For every input value, [normalizeRecentUrlImages] returns at
    most 5 entries, each a non-empty string, with no duplicates; and
    whatever list is handed to [setRecentUrlImages], the item it
    leaves under the cache key is the serialisation of such a list:
    never more than 5 distinct non-empty strings. *)
Theorem normalizeRecentUrlImages_capped (urls : JsValue) :
  (length (normalizeRecentUrlImages urls) ≤ 5
   ∧ Forall (λ u, u ≠ "") (normalizeRecentUrlImages urls)
   ∧ NoDup (normalizeRecentUrlImages urls))
  ∧ ∀ (JSON_stringify : list string → string) (submitted : list string)
      (localStorage : gmap string string),
      ∃ kept : list string,
        getItem (setRecentUrlImages JSON_stringify submitted localStorage)
          recentUrlImagesKey = Some (JSON_stringify kept)
        ∧ kept = normalizeRecentUrlImages (ofStrings submitted)
        ∧ length kept ≤ 5 ∧ Forall (λ u, u ≠ "") kept ∧ NoDup kept.
Proof.
  split.
  - apply normalizeRecentUrlImages_wellFormed.
  - intros JSON_stringify submitted localStorage.
    exists (normalizeRecentUrlImages (ofStrings submitted)).
    split; [apply getItem_setRecentUrlImages|].
    split; [done|]. apply normalizeRecentUrlImages_wellFormed.
Qed.

(** C9. [normalizeRecentUrlImages] is idempotent: applied to its own
    output, it returns that output unchanged. *)
Theorem normalizeRecentUrlImages_idempotent (urls : JsValue) :
  normalizeRecentUrlImages (ofStrings (normalizeRecentUrlImages urls))
  = normalizeRecentUrlImages urls.
Proof.
  apply normalizeRecentUrlImages_fixed, normalizeRecentUrlImages_wellFormed.
Qed.

(** C8. [getRecentUrlImages] is total over every content of
    [localStorage] and every behaviour of [JSON.parse] on it: it never
    throws, the list it returns has at most 5 entries, all non-empty
    and distinct, and it is the empty list when parsing fails. *)
Theorem getRecentUrlImages_total (JSON_parse : string → Exc JsValue)
    (localStorage : gmap string string) :
  ∃ recentImages : list string,
    getRecentUrlImages JSON_parse localStorage = Ok recentImages
    ∧ (length recentImages ≤ 5
       ∧ Forall (λ u, u ≠ "") recentImages
       ∧ NoDup recentImages)
    ∧ ((∃ e : JsError,
          JSON_parse (orEmptyArrayText (getItem localStorage recentUrlImagesKey))
          = Throw e)
       → recentImages = []).
Proof.
  destruct (getRecentUrlImages_Ok JSON_parse localStorage) as (urls & Hurls & Hget).
  exists (normalizeRecentUrlImages urls). split; [done|split].
  - apply normalizeRecentUrlImages_wellFormed.
  - intros [e He]. rewrite He in Hurls. simpl in Hurls.
    injection Hurls as <-. reflexivity.
Qed.




(** ** Paths that start with a protocol *)

Lemma startsWith_true (s target : string) :
  Lodash.startsWith s target = true ↔ startsWithText s target.
Proof.
  unfold Lodash.startsWith, startsWithText. rewrite String.eqb_eq. revert s.
  induction target as [|c target IH]; intros s; simpl.
  - split; [eauto | by destruct s].
  - destruct s as [|d s]; simpl.
    + split; [done | intros [? [=]]].
    + split.
      * intros [= -> Hsub]. apply IH in Hsub as [rest ->]. by exists rest.
      * intros [rest [= -> ->]]. f_equal. apply IH. by exists rest.
Qed.

Lemma startsWith_false (s target : string) :
  Lodash.startsWith s target = false ↔ ¬ startsWithText s target.
Proof.
  rewrite <- startsWith_true. destruct (Lodash.startsWith s target); split; congruence.
Qed.

(** ** The [SourceSelector] component: properties *)

Section SourceSelectorFacts.
Context `{store : selectionState.Interface, sdk : sourceDestination.Interface,
          platform : shared.Interface}.
Import SourceSelector.

Lemma SourceType_onSelectImage_options (imagePath : string) :
  SourceType (onSelectImage_options imagePath)
  = if Lodash.startsWith imagePath "https://" || Lodash.startsWith imagePath "http://"
    then Http else File.
Proof. reflexivity. Qed.

(** The path after the network-drive step is the argument itself
    whenever that step left it alone or failed. *)
Lemma resolveImagePath_unchanged (imagePath : string) (w : World) :
  shared.replaceWindowsNetworkDriveLetter imagePath = Ok imagePath
  ∨ (∃ e, shared.replaceWindowsNetworkDriveLetter imagePath = Throw e) →
  (resolveImagePath imagePath w).1 = imagePath.
Proof.
  unfold resolveImagePath. intros [-> | [e ->]]; reflexivity.
Qed.

(** The network-drive step touches nothing but the analytics log. *)
Lemma resolveImagePath_frame (imagePath : string) (w : World) :
  let w1 := (resolveImagePath imagePath w).2 in
  selection w1 = selection w
  ∧ warning w1 = warning w
  ∧ shownErrors w1 = shownErrors w
  ∧ reported w1 = reported w
  ∧ afterSelectedCalls w1 = afterSelectedCalls w
  ∧ closedSources w1 = closedSources w.
Proof.
  unfold resolveImagePath.
  destruct (shared.replaceWindowsNetworkDriveLetter imagePath); simpl; auto 10.
Qed.

Lemma openSource_Http_None (imagePath : string) :
  ¬ startsWithText imagePath "https://" →
  ¬ startsWithText imagePath "http://" →
  openSource imagePath Http = None.
Proof.
  intros Hs%startsWith_false Hp%startsWith_false.
  unfold openSource. rewrite decide_False by done. by rewrite Hs, Hp.
Qed.

(** With a message that is not empty, the warning is set. *)
Lemma truthy_Some (text : string) : text ≠ "" → truthy (Some text) = true.
Proof. by destruct text. Qed.

(** The two effects of [selectImage] that the claims are about, each
    as a function of the image and the world before. *)
Lemma warning_selectImage (image : SourceMetadata) (w : World) :
  warning (selectImage image w)
  = if shared.looksLikeWindowsImage (path image) then
      if truthy (Some shared.warning_looksLikeWindowsImage)
      then Some (mkWarning shared.warning_looksLikeWindowsImage
                   (Some "Possible Windows image detected"))
      else warning w
    else if negb (hasMBR image) then
      if truthy (Some shared.warning_missingPartitionTable)
      then Some (mkWarning shared.warning_missingPartitionTable
                   (Some "Missing partition table"))
      else warning w
    else warning w.
Proof.
  unfold selectImage, selectImage_warning.
  destruct (shared.looksLikeWindowsImage (path image));
    [|destruct (negb (hasMBR image))];
    repeat match goal with
           | |- context [truthy ?m] => destruct (truthy m)
           | |- context [selectionState.selectImage ?i ?s] =>
               destruct (selectionState.selectImage i s)
           end; reflexivity.
Qed.

(** The guard [if (message)]: with an empty message text the warning
    would not be set at all. *)
Lemma warning_selectImage_empty_message (image : SourceMetadata) (w : World) :
  shared.warning_looksLikeWindowsImage = "" →
  shared.warning_missingPartitionTable = "" →
  warning (selectImage image w) = warning w.
Proof.
  intros Hwin Htable. rewrite warning_selectImage, Hwin, Htable. simpl.
  by repeat destruct (_ : bool).
Qed.

Lemma selection_selectImage (image : SourceMetadata) (w : World) :
  selection (selectImage image w)
  = match selectionState.selectImage image (selection w) with
    | Ok selection' => selection'
    | Throw _ => selection w
    end.
Proof.
  unfold selectImage, selectImage_warning.
  destruct (shared.looksLikeWindowsImage (path image));
    [|destruct (negb (hasMBR image))];
    repeat match goal with
           | |- context [truthy ?m] => destruct (truthy m)
           end; simpl;
    destruct (selectionState.selectImage image (selection w)); reflexivity.
Qed.

End SourceSelectorFacts.

(** The reference store keeps the laws of the selection state. *)
Lemma ReferenceStore_isDriveSelected (d : string) (s : ReferenceStore.State) :
  ReferenceStore.isDriveSelected d s = true
  ↔ ∃ drive, drive ∈ ReferenceStore.drives s ∧ device drive = d.
Proof.
  unfold ReferenceStore.isDriveSelected. rewrite existsb_exists.
  split; intros (drive & Hin & Hdev); exists drive.
  - split; [by apply list_elem_of_In | by apply String.eqb_eq].
  - split; [by apply list_elem_of_In | by apply String.eqb_eq].
Qed.

Lemma ReferenceStore_laws : @selectionState.Laws ReferenceStore.interface.
Proof.
  split; simpl.
  - intros s d. by rewrite ReferenceStore_isDriveSelected.
  - intros s d d'. unfold ReferenceStore.selectDrive.
    destruct (ReferenceStore.isDriveSelected d' s) eqn:Hd'.
    + split; [auto | intros [->|?]; done].
    + rewrite !ReferenceStore_isDriveSelected. simpl. split.
      * intros (drive & [Hin | ->%list_elem_of_singleton]%elem_of_app & Hdev);
          [right; eauto | left; by rewrite <- Hdev].
      * intros [-> | (drive & Hin & Hdev)].
        -- eexists. split; [apply elem_of_app; right; by left | done].
        -- exists drive. split; [apply elem_of_app; by left | done].
  - intros s d d'. unfold ReferenceStore.deselectDrive.
    rewrite !ReferenceStore_isDriveSelected. simpl. split.
    + intros (drive & Hin & Hdev).
      apply list_elem_of_In, filter_In in Hin as [Hin Hne].
      apply negb_true_iff, String.eqb_neq in Hne.
      split; [congruence|]. exists drive. by rewrite list_elem_of_In.
    + intros [Hne (drive & Hin & Hdev)]. exists drive. split; [|done].
      apply list_elem_of_In, filter_In. split; [by apply list_elem_of_In|].
      apply negb_true_iff, String.eqb_neq. congruence.
  - intros s s' img. unfold ReferenceStore.selectImage.
    destruct (String.eqb (path img) ""); [done|]. by intros [= <-].
Qed.

Section SourceSelectorProperties.
Context `{store : selectionState.Interface, sdk : sourceDestination.Interface,
          platform : shared.Interface, parent : props.Interface}.
Import SourceSelector.

(** C10. A path delivered over the 'select-image' channel reaches
    [onSelectImage] as the listener registered in [componentDidMount],
    which is not bound to the component: the call rejects with a
    [TypeError] and nothing is passed on to [selectImageByPath],
    neither as an HTTP nor as a file source.  Called on the component,
    the same method passes the path on with the source type [Http]
    exactly when the path starts with [https://] or [http://], and
    [File] otherwise. *)
Theorem onSelectImage_unbound_listener (imagePath : string) (w : World) :
  let options := onSelectImage_options imagePath in
  selectImageListener imagePath w
  = Throw (mkError "this.selectImageByPath is not a function")
  ∧ onSelectImage TheComponent imagePath w = Ok (selectImageByPath options w)
  ∧ options = mkSourceOptions imagePath (SourceType options)
  ∧ (SourceType options = Http
     ↔ startsWithText imagePath "https://" ∨ startsWithText imagePath "http://")
  ∧ (SourceType options = File
     ↔ ¬ (startsWithText imagePath "https://" ∨ startsWithText imagePath "http://")).
Proof.
  cbv zeta. split; [done|]. split; [done|]. split; [done|].
  rewrite SourceType_onSelectImage_options, <- !startsWith_true.
  destruct (Lodash.startsWith imagePath "https://");
    destruct (Lodash.startsWith imagePath "http://"); simpl;
    intuition congruence.
Qed.

(** C4. When [selectImageByPath] is called with the [Http] source type
    and the path it tests (the argument, after the network-drive
    letter step) starts with neither [https://] nor [http://], it
    shows the user error titled "Unsupported protocol" and returns:
    the selection state is as before, no image is selected,
    [afterSelected] is not called, no warning is set, no source is
    opened or closed. *)
Theorem selectImageByPath_unsupported_protocol (imagePath : string) (w : World) :
  let tested := (resolveImagePath imagePath w).1 in
  ¬ startsWithText tested "https://" →
  ¬ startsWithText tested "http://" →
  let w' := selectImageByPath (mkSourceOptions imagePath Http) w in
  shownErrors w'
  = shownErrors w
    ++ [errors.createUserError "Unsupported protocol" shared.error_unsupportedProtocol]
  ∧ last (analyticsLog w') = Some (LogEvent "Unsupported protocol" (PathData tested))
  ∧ selection w' = selection w
  ∧ afterSelectedCalls w' = afterSelectedCalls w
  ∧ warning w' = warning w
  ∧ reported w' = reported w
  ∧ closedSources w' = closedSources w.
Proof.
  intros tested Hs Hp. subst tested.
  pose proof (resolveImagePath_frame imagePath w) as Hframe.
  unfold selectImageByPath. simpl.
  destruct (resolveImagePath imagePath w) as [tested w1]. simpl in *.
  rewrite (openSource_Http_None _ Hs Hp). simpl.
  destruct Hframe as (-> & -> & -> & -> & -> & ->).
  split_and!; try done. apply last_snoc.
Qed.

(** C6. When the SDK delivers the metadata of the source: if it
    reports a partition table, [getMetadata] returns metadata with
    [hasMBR] true and [partitions] the partitions of that table; if it
    reports none, [hasMBR] is false; either way [path] is
    [sourcePath], on top of the metadata the SDK delivered. *)
Theorem getMetadata_partition_table (source : sourceDestination.SourceDestination)
    (sourcePath : string) (sdkData : sourceDestination.Metadata) :
  sourceDestination.getMetadata source = Ok sdkData →
  (∀ table,
     sourceDestination.getPartitionTable source = Ok (Some table) →
     ∃ metadata,
       getMetadata source sourcePath = Ok metadata
       ∧ hasMBR metadata = true
       ∧ partitions metadata = Some (tablePartitions table)
       ∧ path metadata = sourcePath
       ∧ sdkMetadata metadata = sdkData)
  ∧ (sourceDestination.getPartitionTable source = Ok None →
     ∃ metadata,
       getMetadata source sourcePath = Ok metadata
       ∧ hasMBR metadata = false
       ∧ path metadata = sourcePath
       ∧ sdkMetadata metadata = sdkData).
Proof.
  intros Hsdk. unfold getMetadata. rewrite Hsdk. simpl.
  split; [intros table Htable | intros Htable];
    rewrite Htable; simpl; eexists; split_and!; reflexivity.
Qed.

(** When the SDK rejects either call, so does [getMetadata]. *)
Lemma getMetadata_rejects (source : sourceDestination.SourceDestination)
    (sourcePath : string) (e : JsError) :
  sourceDestination.getMetadata source = Throw e
  ∨ (∃ sdkData, sourceDestination.getMetadata source = Ok sdkData
                ∧ sourceDestination.getPartitionTable source = Throw e) →
  getMetadata source sourcePath = Throw e.
Proof.
  unfold getMetadata. intros [-> | (sdkData & -> & Htable)]; simpl; [done|].
  by rewrite Htable.
Qed.

Context `{!selectionState.Laws}.

(** C3. With the two warning messages being non-empty texts: if the
    image path looks like a Windows image, the warning set is
    "Possible Windows image detected", whatever [hasMBR] is; otherwise
    the warning set is "Missing partition table" exactly when [hasMBR]
    is false, and no warning is set when [hasMBR] is true.  In each
    case the image goes to the selection state: once the store has
    taken it, it is the selected image. *)
Theorem selectImage_warnings (image : SourceMetadata) (w : World) :
  shared.warning_looksLikeWindowsImage ≠ "" →
  shared.warning_missingPartitionTable ≠ "" →
  let windowsWarning :=
    mkWarning shared.warning_looksLikeWindowsImage
      (Some "Possible Windows image detected") in
  let tableWarning :=
    mkWarning shared.warning_missingPartitionTable
      (Some "Missing partition table") in
  let w' := selectImage image w in
  (shared.looksLikeWindowsImage (path image) = true →
   warning w' = Some windowsWarning)
  ∧ (shared.looksLikeWindowsImage (path image) = false →
     (hasMBR image = false → warning w' = Some tableWarning)
     ∧ (hasMBR image = true → warning w' = warning w)
     ∧ (warning w = None →
        (hasMBR image = false ↔ warning w' = Some tableWarning)))
  ∧ (∀ selection',
       selectionState.selectImage image (selection w) = Ok selection' →
       selection w' = selection'
       ∧ selectionState.getImage (selection w') = Some image).
Proof.
  intros Hwin%truthy_Some Htable%truthy_Some. cbv zeta.
  rewrite warning_selectImage, selection_selectImage, Hwin, Htable.
  split_and!.
  - by intros ->.
  - intros ->. destruct (hasMBR image); simpl; split_and!; try done.
    intros ->. split; done.
  - intros selection' Hsel. rewrite Hsel. split; [done|].
    by apply (selectionState.getImage_selectImage (selection w)).
Qed.

End SourceSelectorProperties.

(** ** [selectAllTargets]: the selection afterwards *)

Section TargetSelectorProperties.
Context `{store : selectionState.Interface} `{!selectionState.Laws}.
Import TargetSelector.

Lemma elem_of_devices (drives : list Drive) (d : string) :
  d ∈ devices drives ↔ ∃ drive, drive ∈ drives ∧ device drive = d.
Proof.
  unfold devices. rewrite list_elem_of_fmap. split.
  - intros (drive & -> & Hin). eauto.
  - intros (drive & Hin & <-). eauto.
Qed.

Lemma findTarget_is_Some (modalTargets : list Drive) (drive : Drive) :
  is_Some (findTarget modalTargets drive) ↔ device drive ∈ devices modalTargets.
Proof.
  unfold findTarget. rewrite elem_of_devices. split.
  - intros [target Hfind]. apply find_some in Hfind as [Hin Heq].
    exists target. split; [by apply list_elem_of_In | by apply String.eqb_eq].
  - intros (target & Hin & Hdev).
    destruct (find _ modalTargets) as [found|] eqn:Hfind; [by eexists|].
    apply list_elem_of_In in Hin.
    pose proof (find_none _ _ Hfind _ Hin) as Hne. simpl in Hne.
    apply String.eqb_neq in Hne. congruence.
Qed.

(** After the first loop a device is selected when it was selected
    before and is not one of the drives the loop went over. *)
Lemma isDriveSelected_deselect_loop (deselected : list Drive) (w : World)
    (d : string) :
  selectionState.isDriveSelected d (selection (fold_left deselectOne deselected w))
  = true
  ↔ selectionState.isDriveSelected d (selection w) = true ∧ d ∉ devices deselected.
Proof.
  revert w. induction deselected as [|drive deselected IH]; intros w; simpl.
  - unfold devices. simpl. rewrite elem_of_nil. tauto.
  - rewrite IH. unfold deselectOne, deselectDrive, logEvent. simpl.
    rewrite selectionState.isDriveSelected_deselectDrive.
    unfold devices. simpl. rewrite not_elem_of_cons. tauto.
Qed.

(** After the second loop a device is selected when it was selected
    before or is one of the drives the loop went over. *)
Lemma isDriveSelected_select_loop (modalTargets : list Drive) (w : World)
    (d : string) :
  selectionState.isDriveSelected d (selection (fold_left selectOne modalTargets w))
  = true
  ↔ selectionState.isDriveSelected d (selection w) = true ∨ d ∈ devices modalTargets.
Proof.
  revert w. induction modalTargets as [|drive modalTargets IH]; intros w; simpl.
  - unfold devices. simpl. rewrite elem_of_nil. tauto.
  - rewrite IH. unfold selectOne, selectDrive. simpl.
    rewrite selectionState.isDriveSelected_selectDrive.
    unfold devices. simpl. rewrite elem_of_cons.
    destruct (negb _); simpl; tauto.
Qed.

(** C2. Given that the store lists every selected device among its
    selected drives, that [selectDrive] adds a device to the selection
    and that [deselectDrive] removes it: after
    [selectAllTargets(modalTargets)] a device is selected exactly when
    some element of [modalTargets] has that device.  So a drive of the
    store whose device no target has is no longer selected, and every
    drive of [modalTargets] is. *)
Theorem selectAllTargets_selection (modalTargets : list Drive) (w : World) :
  let selected d :=
    selectionState.isDriveSelected d (selection (selectAllTargets modalTargets w)) in
  (∀ d, selected d = true
        ↔ ∃ modalTarget, modalTarget ∈ modalTargets ∧ device modalTarget = d)
  ∧ (∀ drive,
       drive ∈ selectionState.getSelectedDrives (selection w) →
       (¬ ∃ modalTarget, modalTarget ∈ modalTargets
                         ∧ device modalTarget = device drive) →
       selected (device drive) = false)
  ∧ (∀ modalTarget, modalTarget ∈ modalTargets → selected (device modalTarget) = true).
Proof.
  cbv zeta.
  assert (Hiff : ∀ d,
    selectionState.isDriveSelected d (selection (selectAllTargets modalTargets w))
    = true ↔ d ∈ devices modalTargets).
  { intros d. unfold selectAllTargets.
    rewrite isDriveSelected_select_loop, isDriveSelected_deselect_loop.
    split; [|tauto]. intros [[Hsel Hkept]|Hin]; [|done].
    destruct (decide (d ∈ devices modalTargets)) as [|Hout]; [done|].
    exfalso. apply Hkept.
    apply selectionState.selected_listed in Hsel as (drive & Hdrive & <-).
    apply elem_of_devices. exists drive. split; [|done].
    apply list_elem_of_In, filter_In. split; [by apply list_elem_of_In|].
    apply negb_true_iff, bool_decide_eq_false.
    by rewrite findTarget_is_Some. }
  split_and!.
  - intros d. by rewrite Hiff, elem_of_devices.
  - intros drive _ Hnone. apply not_true_is_false.
    by rewrite Hiff, elem_of_devices.
  - intros modalTarget Hin. apply Hiff, elem_of_devices. eauto.
Qed.

End TargetSelectorProperties.

(** ** [toggleSetting] *)

Section SettingsProperties.
Import Settings.

(** C7. [toggleSetting(key)] writes the negation of the current value
    of the key (of [currentSettings[key]], [undefined] being negated
    to [true]) to the settings store, at that key and nowhere else;
    in the new [currentSettings] the value at the key is that
    negation, and the value at every other key is what it was. *)
Theorem toggleSetting_negates (setting : string) (options : option SettingOptions)
    (w : World) :
  let value := currentSettings w !! setting in
  let w' := toggleSetting setting options w in
  settingsStore w' = settings_set setting (not_value value) (settingsStore w)
  ∧ settingsStore w' !! setting = Some (not_value value)
  ∧ (∀ key, key ≠ setting → settingsStore w' !! key = settingsStore w !! key)
  ∧ currentSettings w' !! setting = Some (not_value value)
  ∧ (∀ b, value = Some b → currentSettings w' !! setting = Some (negb b))
  ∧ (∀ key, key ≠ setting → currentSettings w' !! key = currentSettings w !! key).
Proof.
  cbv zeta. unfold toggleSetting, settings_set. simpl. split_and!.
  - done.
  - apply lookup_insert_eq.
  - intros key Hkey. by apply lookup_insert_ne.
  - apply lookup_insert_eq.
  - intros b ->. apply lookup_insert_eq.
  - intros key Hkey. by apply lookup_insert_ne.
Qed.

End SettingsProperties.

(** ** The components on concrete inputs *)

Section Runs.
Existing Instance ReferenceStore.interface.
Existing Instance SampleSdk.interface.
Existing Instance SamplePlatform.interface.
Existing Instance SampleParent.interface.

Example selectImage_mbr :
  SourceSelector.warning (SourceSelector.selectImage mbrImage idleSelector) = None
  ∧ ReferenceStore.image
      (SourceSelector.selection (SourceSelector.selectImage mbrImage idleSelector))
    = Some mbrImage.
Proof. split; reflexivity. Qed.

Example selectImage_raw :
  SourceSelector.warning (SourceSelector.selectImage rawImage idleSelector)
  = Some (mkWarning "It looks like this is not a bootable image."
            (Some "Missing partition table")).
Proof. reflexivity. Qed.

Example selectImage_windows :
  SourceSelector.warning (SourceSelector.selectImage windowsImage idleSelector)
  = Some (mkWarning "It looks like you are trying to burn a Windows image."
            (Some "Possible Windows image detected")).
Proof. reflexivity. Qed.

Example selectImageByPath_file :
  let w := SourceSelector.selectImageByPath
             (mkSourceOptions "/images/debian.img" File) idleSelector in
  ReferenceStore.image (SourceSelector.selection w) = Some mbrImage
  ∧ SourceSelector.afterSelectedCalls w = [mkSourceOptions "/images/debian.img" File]
  ∧ SourceSelector.closedSources w = ["/images/debian.img"]
  ∧ SourceSelector.shownErrors w = [].
Proof. cbv zeta. split_and!; reflexivity. Qed.

Example selectImageByPath_missing :
  let w := SourceSelector.selectImageByPath
             (mkSourceOptions "/images/missing.img" File) idleSelector in
  ReferenceStore.image (SourceSelector.selection w) = None
  ∧ SourceSelector.afterSelectedCalls w = []
  ∧ SourceSelector.closedSources w = ["/images/missing.img"]
  ∧ SourceSelector.shownErrors w
    = [errors.createUserError "Error opening image"
         "Something went wrong while opening missing.img: ENOENT: no such file or directory"].
Proof. cbv zeta. split_and!; reflexivity. Qed.

Example onSelectImage_url :
  SourceType (SourceSelector.onSelectImage_options "https://example.org/debian.img") = Http
  ∧ SourceType (SourceSelector.onSelectImage_options "/images/debian.img") = File
  ∧ SourceType (SourceSelector.onSelectImage_options "HTTP://example.org/debian.img") = File.
Proof. split_and!; reflexivity. Qed.

End Runs.

Section Witnesses.
Existing Instance ReferenceStore.interface.
Existing Instance SampleSdk.interface.
Existing Instance SamplePlatform.interface.
Existing Instance SampleParent.interface.

Lemma selectImage_warnings_witness :
  SourceSelector.warning (SourceSelector.selectImage windowsImage idleSelector)
  = Some (mkWarning "It looks like you are trying to burn a Windows image."
            (Some "Possible Windows image detected")).
Proof.
  refine (proj1 (@selectImage_warnings
                   ReferenceStore.interface SampleSdk.interface
                   SamplePlatform.interface ReferenceStore_laws
                   windowsImage idleSelector _ _) _).
  - discriminate.
  - discriminate.
  - reflexivity.
Defined.

Lemma selectImageByPath_unsupported_protocol_witness :
  SourceSelector.shownErrors
    (SourceSelector.selectImageByPath
       (mkSourceOptions "ftp://example.org/debian.img" Http) idleSelector)
  = [errors.createUserError "Unsupported protocol"
       "Only http:// and https:// URLs are supported."].
Proof.
  refine (proj1 (@selectImageByPath_unsupported_protocol
                   ReferenceStore.interface SampleSdk.interface
                   SamplePlatform.interface SampleParent.interface
                   "ftp://example.org/debian.img" idleSelector _ _)).
  - apply startsWith_false. reflexivity.
  - apply startsWith_false. reflexivity.
Defined.

Lemma getMetadata_partition_table_witness :
  ∃ metadata,
    @SourceSelector.getMetadata SampleSdk.interface
      "/images/debian.img" "/images/debian.img" = Ok metadata
    ∧ hasMBR metadata = true
    ∧ partitions metadata = Some [MBRPartition 2048 8190 131 1]
    ∧ path metadata = "/images/debian.img"
    ∧ sdkMetadata metadata
      = sourceDestination.mkMetadata (Some "/images/debian.img") (Some 4194304%Z)
          None None.
Proof.
  refine (proj1 (@getMetadata_partition_table SampleSdk.interface
                   "/images/debian.img" "/images/debian.img" _ _)
            (mkPartitionTable "mbr" [MBRPartition 2048 8190 131 1]) _).
  - reflexivity.
  - reflexivity.
Defined.

Example selectAllTargets_run :
  devices (ReferenceStore.drives
             (TargetSelector.selection
                (TargetSelector.selectAllTargets pickedTargets twoSelected)))
  = ["/dev/sdb"; "/dev/sdc"]
  ∧ TargetSelector.analyticsLog
      (TargetSelector.selectAllTargets pickedTargets twoSelected)
    = [LogEvent "Toggle drive"
         (ToggleDriveData (mkDrive "/dev/sda" "SanDisk" "/dev/sda") true);
       LogEvent "Toggle drive"
         (ToggleDriveData (mkDrive "/dev/sdc" "Samsung" "/dev/sdc") false)].
Proof. split; reflexivity. Qed.

Lemma selectAllTargets_selection_witness :
  @selectionState.isDriveSelected ReferenceStore.interface "/dev/sdc"
    (TargetSelector.selection
       (TargetSelector.selectAllTargets pickedTargets twoSelected)) = true.
Proof.
  refine (proj2 (proj1 (@selectAllTargets_selection
                          ReferenceStore.interface ReferenceStore_laws
                          pickedTargets twoSelected) "/dev/sdc") _).
  exists (mkDrive "/dev/sdc" "Samsung" "/dev/sdc"). split; [|reflexivity].
  apply list_elem_of_In. simpl. auto.
Defined.

Example toggleSetting_run :
  let w := Settings.mkWorld
             {[ "errorReporting" := true; "unmountOnSuccess" := true ]}
             {[ "errorReporting" := true; "unmountOnSuccess" := true ]} [] in
  let w' := Settings.toggleSetting "errorReporting" None w in
  Settings.settingsStore w' !! "errorReporting" = Some false
  ∧ Settings.currentSettings w' !! "errorReporting" = Some false
  ∧ Settings.currentSettings w' !! "unmountOnSuccess" = Some true
  ∧ Settings.currentSettings (Settings.toggleSetting "updatesEnabled" None w)
    !! "updatesEnabled" = Some true.
Proof. cbv zeta. split_and!; reflexivity. Qed.

End Witnesses.

(** ** More on the recent-URL cache *)

Section RecentUrlOrder.
Import Lodash LodashFacts.

Lemma List_filter_sublist {A} (p : A → bool) (xs : list A) :
  List.filter p xs `sublist_of` xs.
Proof.
  induction xs as [|x xs IH]; simpl; [done|].
  destruct (p x); [by apply sublist_skip | by apply sublist_cons].
Qed.

(** [baseUniq] only ever pushes, and pushes in the order of the array. *)
Lemma baseUniq_pushes (array result : list string) :
  ∃ pushed, baseUniq result array = result ++ pushed ∧ pushed `sublist_of` array.
Proof.
  unfold baseUniq. revert result.
  induction array as [|v array IH]; intros result; simpl.
  - exists []. by rewrite app_nil_r.
  - unfold uniq_step at 2. destruct (includes result v).
    + destruct (IH result) as (pushed & -> & Hsub).
      exists pushed. split; [done | by apply sublist_cons].
    + destruct (IH (result ++ [v])) as (pushed & -> & Hsub).
      exists (v :: pushed). split; [by rewrite <- app_assoc | by apply sublist_skip].
Qed.

Lemma uniq_sublist (array : list string) : uniq array `sublist_of` array.
Proof.
  destruct (baseUniq_pushes array []) as (pushed & Heq & Hsub).
  unfold uniq. by rewrite Heq.
Qed.

Lemma elem_of_nonEmptyStrings (urls : list JsValue) (u : string) :
  u ∈ nonEmptyStrings urls ↔ JStr u ∈ urls ∧ u ≠ "".
Proof.
  split.
  - intros Hu. split.
    + apply (list_elem_of_fmap_2 JStr) in Hu.
      rewrite nonEmptyStrings_values in Hu.
      eapply elem_of_sublist; [exact Hu|].
      unfold reject, filter.
      etrans; apply List_filter_sublist.
    + pose proof (nonEmptyStrings_nonempty urls) as Hne.
      rewrite Forall_forall in Hne. by apply Hne.
  - intros [Hin Hne].
    assert (Hv : JStr u ∈ JStr <$> nonEmptyStrings urls).
    { rewrite nonEmptyStrings_values. unfold reject, filter.
      apply list_elem_of_In, filter_In. split.
      - apply filter_In. split; [by apply list_elem_of_In | done].
      - simpl. by destruct u. }
    apply list_elem_of_fmap in Hv as (u' & [= <-] & Hu'). done.
Qed.

End RecentUrlOrder.

Section RecentUrlExtras.
Import Lodash LodashFacts.

(** X1. [normalizeRecentUrlImages] makes nothing up and reorders
    nothing: the strings it returns are elements of the input array,
    in the order they have there (and there are none when the input
    is not an array). *)
Theorem normalizeRecentUrlImages_in_order (urls : JsValue) :
  JStr <$> normalizeRecentUrlImages urls `sublist_of` arrayOrEmpty urls.
Proof.
  rewrite normalizeRecentUrlImages_unfold.
  trans (JStr <$> nonEmptyStrings (arrayOrEmpty urls)).
  - apply fmap_sublist. etrans; [apply takeRight_sublist | apply uniq_sublist].
  - rewrite nonEmptyStrings_values. unfold reject, filter.
    etrans; apply List_filter_sublist.
Qed.

(** X2. Entries are only lost to the cap: when the result has fewer
    than 5 entries, every non-empty string of the input array is in
    it. *)
Theorem normalizeRecentUrlImages_room (urls : JsValue) (u : string) :
  length (normalizeRecentUrlImages urls) < 5 →
  JStr u ∈ arrayOrEmpty urls →
  u ≠ "" →
  u ∈ normalizeRecentUrlImages urls.
Proof.
  rewrite normalizeRecentUrlImages_unfold. intros Hlen Hin Hne.
  unfold takeRight in *. rewrite length_drop in Hlen.
  replace (length (uniq (nonEmptyStrings (arrayOrEmpty urls))) - 5) with 0 by lia.
  rewrite drop_0, elem_of_uniq. by apply elem_of_nonEmptyStrings.
Qed.

Lemma normalizeRecentUrlImages_room_witness :
  "http://h/b.img"
  ∈ normalizeRecentUrlImages
      (JArr [JStr "http://h/a.img"; JNum "7"; JStr ""; JStr "http://h/b.img";
             JStr "http://h/a.img"]).
Proof.
  apply normalizeRecentUrlImages_room.
  - vm_compute. lia.
  - apply list_elem_of_In. simpl. auto 10.
  - discriminate.
Defined.

(** X3. Submitting a new, non-empty URL to a well-formed list puts it
    at the right end.  With fewer than 5 entries nothing else changes;
    with 5, the leftmost entry is dropped. *)
Theorem sanitizedRecentUrls_fresh (recentImages : list string) (imageURL : string) :
  wellFormedRecent recentImages →
  imageURL ≠ "" →
  imageURL ∉ recentImages →
  last (sanitizedRecentUrls recentImages imageURL) = Some imageURL
  ∧ (length recentImages < 5 →
     sanitizedRecentUrls recentImages imageURL = recentImages ++ [imageURL])
  ∧ (length recentImages = 5 →
     sanitizedRecentUrls recentImages imageURL = drop 1 recentImages ++ [imageURL]).
Proof.
  intros Hwf Hurl Hfresh.
  split; [by apply sanitizedRecentUrls_fresh_last|].
  destruct Hwf as (Hlen & Hne & Hnd).
  assert (Heq : sanitizedRecentUrls recentImages imageURL
                = takeRight 5 (recentImages ++ [imageURL])).
  { unfold sanitizedRecentUrls. rewrite normalizeRecentUrlImages_unfold.
    change (arrayOrEmpty (ofStrings (recentImages ++ [imageURL])))
      with (JStr <$> recentImages ++ [imageURL]).
    rewrite nonEmptyStrings_ofStrings.
    - by rewrite uniq_snoc_fresh, uniq_NoDup.
    - apply Forall_app. split; [done | by constructor]. }
  rewrite Heq. unfold takeRight. rewrite length_app. simpl. split; intros Hn.
  - by replace (length recentImages + 1 - 5) with 0 by lia.
  - replace (length recentImages + 1 - 5) with 1 by lia.
    rewrite drop_app_le by lia. done.
Qed.

Lemma sanitizedRecentUrls_fresh_witness :
  sanitizedRecentUrls
    ["http://h/a.img"; "http://h/b.img"; "http://h/c.img"; "http://h/d.img";
     "http://h/e.img"] "http://h/f.img"
  = ["http://h/b.img"; "http://h/c.img"; "http://h/d.img"; "http://h/e.img";
     "http://h/f.img"].
Proof.
  refine (proj2 (proj2 (sanitizedRecentUrls_fresh
            ["http://h/a.img"; "http://h/b.img"; "http://h/c.img"; "http://h/d.img";
             "http://h/e.img"] "http://h/f.img" _ _ _)) _).
  - split_and!; [simpl; lia | compute_done | compute_done].
  - discriminate.
  - compute_done.
  - reflexivity.
Defined.

(** X4. Submitting the empty URL leaves a well-formed list as it is. *)
Theorem sanitizedRecentUrls_empty_url (recentImages : list string) :
  wellFormedRecent recentImages →
  sanitizedRecentUrls recentImages "" = recentImages.
Proof.
  intros (Hlen & Hne & Hnd).
  unfold sanitizedRecentUrls. rewrite normalizeRecentUrlImages_unfold.
  change (arrayOrEmpty (ofStrings (recentImages ++ [""])))
    with (JStr <$> recentImages ++ [""]).
  assert (Hdrop : nonEmptyStrings (JStr <$> recentImages ++ [""]) = recentImages).
  { rewrite fmap_app. unfold nonEmptyStrings, reject, filter.
    rewrite !List.filter_app, omap_app. simpl. rewrite app_nil_r.
    by apply nonEmptyStrings_ofStrings. }
  rewrite Hdrop, uniq_NoDup by done. by apply takeRight_short.
Qed.

Lemma sanitizedRecentUrls_empty_url_witness :
  sanitizedRecentUrls ["http://h/a.img"; "http://h/b.img"] ""
  = ["http://h/a.img"; "http://h/b.img"].
Proof.
  apply sanitizedRecentUrls_empty_url.
  split_and!; [simpl; lia | compute_done | compute_done].
Defined.

(** X5. What the [URLSelector] stores is what the next
    [getRecentUrlImages] reads: provided [JSON.parse] reads back the
    text [JSON.stringify] wrote for the list, the list read after a
    submission is the sanitized list of that submission. *)
Theorem URLSelector_done_read_back
    (JSON_parse : string → Exc JsValue) (JSON_stringify : list string → string)
    (recentImages : list string) (imageURL : string)
    (localStorage : gmap string string) :
  let kept := sanitizedRecentUrls recentImages imageURL in
  JSON_stringify kept ≠ "" →
  JSON_parse (JSON_stringify kept) = Ok (ofStrings kept) →
  getRecentUrlImages JSON_parse
    (URLSelector_done JSON_stringify recentImages imageURL localStorage)
  = Ok kept.
Proof.
  intros kept Htext Hparse.
  assert (Hfixed : normalizeRecentUrlImages (ofStrings kept) = kept).
  { apply normalizeRecentUrlImages_fixed, normalizeRecentUrlImages_wellFormed. }
  unfold getRecentUrlImages, URLSelector_done.
  rewrite getItem_setRecentUrlImages. fold kept. rewrite Hfixed.
  unfold orEmptyArrayText.
  destruct (JSON_stringify kept) as [|c text] eqn:Htxt; [done|]. simpl.
  rewrite Hparse. simpl. by rewrite Hfixed.
Qed.

Lemma URLSelector_done_read_back_witness :
  getRecentUrlImages SampleJson.parse
    (URLSelector_done SampleJson.stringify
       ["http://h/a.img"; "http://h/b.img"] "http://h/c.img" ∅)
  = Ok ["http://h/a.img"; "http://h/b.img"; "http://h/c.img"].
Proof.
  refine (URLSelector_done_read_back SampleJson.parse SampleJson.stringify
            ["http://h/a.img"; "http://h/b.img"] "http://h/c.img" ∅ _ _).
  - discriminate.
  - reflexivity.
Defined.

End RecentUrlExtras.

(** ** More on [selectImage] and [selectImageByPath] *)

Section SourceSelectorOutcomes.
Context `{store : selectionState.Interface, sdk : sourceDestination.Interface,
          platform : shared.Interface, parent : props.Interface}.
Import SourceSelector.

(** [selectImage] shows no error dialog, calls no [afterSelected] and
    closes nothing. *)
Lemma selectImage_frame (image : SourceMetadata) (w : World) :
  shownErrors (selectImage image w) = shownErrors w
  ∧ afterSelectedCalls (selectImage image w) = afterSelectedCalls w
  ∧ closedSources (selectImage image w) = closedSources w.
Proof.
  unfold selectImage, selectImage_warning.
  destruct (shared.looksLikeWindowsImage (path image));
    [|destruct (negb (hasMBR image))];
    repeat match goal with
           | |- context [truthy ?m] => destruct (truthy m)
           end; simpl;
    destruct (selectionState.selectImage image (selection w)); simpl; auto.
Qed.

(** [selectImageByPath], branch by branch. *)
Lemma selectImageByPath_unfold (options : SourceOptions) (w : World) :
  let tested := (resolveImagePath (imagePath options) w).1 in
  let w1 := (resolveImagePath (imagePath options) w).2 in
  selectImageByPath options w
  = match openSource tested (SourceType options) with
    | None =>
        logEvent "Unsupported protocol" (PathData tested)
          (showError
             (errors.createUserError "Unsupported protocol"
                shared.error_unsupportedProtocol) w1)
    | Some source =>
        closeSource source
          match openedMetadata source tested with
          | Ok metadata =>
              afterSelected_or_handleError
                "Error opening image" (shared.path_basename tested)
                (mkSourceOptions tested (SourceType options))
                (selectImage metadata w1)
          | Throw error =>
              handleError "Error opening image" (shared.path_basename tested) error w1
          end
    end.
Proof.
  unfold selectImageByPath.
  destruct (resolveImagePath (imagePath options) w) as [tested w1]. reflexivity.
Qed.

(** The call of the property: it is recorded; its error, if it throws,
    is shown; selection, warning and sources are not touched. *)
Lemma afterSelected_or_handleError_frame (title sourcePath : string)
    (options : SourceOptions) (w : World) :
  let w' := afterSelected_or_handleError title sourcePath options w in
  afterSelectedCalls w' = afterSelectedCalls w ++ [options]
  ∧ shownErrors w'
    = shownErrors w
      ++ match props.afterSelected options with
         | Ok _ => []
         | Throw error =>
             [errors.createUserError title
                (shared.error_openImage sourcePath (message error))]
         end
  ∧ selection w' = selection w
  ∧ warning w' = warning w
  ∧ closedSources w' = closedSources w.
Proof.
  cbv zeta. unfold afterSelected_or_handleError.
  destruct (props.afterSelected options); simpl; by rewrite ?app_nil_r.
Qed.

(** X6. Every call of [selectImageByPath] shows at most one error
    dialog and calls [afterSelected] at most once.  Either
    [afterSelected] is not called and one error dialog is shown, or
    [afterSelected] is called once, with the path that was tested and
    the source type that was asked for; then no error dialog is shown
    when the property comes back, and, the call being inside the
    [try], the "Error opening image" dialog is shown with the error
    of the property when it throws. *)
Theorem selectImageByPath_error_or_afterSelected (options : SourceOptions)
    (w : World) :
  let w' := selectImageByPath options w in
  let tested := (resolveImagePath (imagePath options) w).1 in
  let called := mkSourceOptions tested (SourceType options) in
  ((∃ error, shownErrors w' = shownErrors w ++ [error])
   ∧ afterSelectedCalls w' = afterSelectedCalls w)
  ∨ (afterSelectedCalls w' = afterSelectedCalls w ++ [called]
     ∧ match props.afterSelected called with
       | Ok _ => shownErrors w' = shownErrors w
       | Throw error =>
           shownErrors w'
           = shownErrors w
             ++ [errors.createUserError "Error opening image"
                   (shared.error_openImage (shared.path_basename tested)
                      (message error))]
       end).
Proof.
  cbv zeta. rewrite selectImageByPath_unfold.
  destruct (resolveImagePath_frame (imagePath options) w)
    as (_ & _ & Herr & _ & Hafter & _).
  destruct (openSource _ _) as [source|]; simpl.
  - destruct (openedMetadata source _) as [metadata|error]; simpl.
    + right.
      destruct (afterSelected_or_handleError_frame
                  "Error opening image"
                  (shared.path_basename (resolveImagePath (imagePath options) w).1)
                  (mkSourceOptions (resolveImagePath (imagePath options) w).1
                     (SourceType options))
                  (selectImage metadata (resolveImagePath (imagePath options) w).2))
        as (-> & -> & _).
      destruct (selectImage_frame metadata (resolveImagePath (imagePath options) w).2)
        as (-> & -> & _).
      rewrite Herr, Hafter. split; [done|].
      destruct (props.afterSelected _); by rewrite ?app_nil_r.
    + left. rewrite Herr, Hafter. eauto.
  - left. rewrite Herr, Hafter. eauto.
Qed.

(** X7. [selectImageByPath] closes the source it opened, once,
    whatever became of it, and closes nothing else. *)
Theorem selectImageByPath_closes_source (options : SourceOptions) (w : World) :
  let tested := (resolveImagePath (imagePath options) w).1 in
  closedSources (selectImageByPath options w)
  = closedSources w ++ opened (openSource tested (SourceType options)).
Proof.
  cbv zeta. rewrite selectImageByPath_unfold.
  destruct (resolveImagePath_frame (imagePath options) w)
    as (_ & _ & _ & _ & _ & Hclosed).
  destruct (openSource _ _) as [source|]; simpl.
  - destruct (openedMetadata source _) as [metadata|error]; simpl.
    + destruct (afterSelected_or_handleError_frame
                  "Error opening image"
                  (shared.path_basename (resolveImagePath (imagePath options) w).1)
                  (mkSourceOptions (resolveImagePath (imagePath options) w).1
                     (SourceType options))
                  (selectImage metadata (resolveImagePath (imagePath options) w).2))
        as (_ & _ & _ & _ & ->).
      destruct (selectImage_frame metadata (resolveImagePath (imagePath options) w).2)
        as (_ & _ & ->).
      by rewrite Hclosed.
    + by rewrite Hclosed.
  - by rewrite app_nil_r.
Qed.

End SourceSelectorOutcomes.

Section SourceSelectorEdges.
Context `{store : selectionState.Interface, sdk : sourceDestination.Interface,
          platform : shared.Interface, parent : props.Interface}.
Import SourceSelector.

(** X8. When the store throws at the image, [selectImage] does not
    throw: the error goes to the exception reporter, the selection is
    as before and no "Select image" event is logged.  The warning was
    decided before the store was asked, so it is set all the same. *)
Theorem selectImage_rejected (image : SourceMetadata) (w : World) (e : JsError) :
  selectionState.selectImage image (selection w) = Throw e →
  let w' := selectImage image w in
  selection w' = selection w
  ∧ reported w' = reported w ++ [e]
  ∧ (∃ events,
       analyticsLog w' = analyticsLog w ++ events
       ∧ ∀ message data, LogEvent message data ∈ events → message ≠ "Select image")
  ∧ (shared.looksLikeWindowsImage (path image) = false →
     hasMBR image = false →
     shared.warning_missingPartitionTable ≠ "" →
     warning w'
     = Some (mkWarning shared.warning_missingPartitionTable
               (Some "Missing partition table"))).
Proof.
  intros Hrej. cbv zeta. split_and!.
  - by rewrite selection_selectImage, Hrej.
  - unfold selectImage, selectImage_warning.
    destruct (shared.looksLikeWindowsImage (path image));
      [|destruct (negb (hasMBR image))];
      repeat match goal with
             | |- context [truthy ?m] => destruct (truthy m)
             end; simpl; by rewrite Hrej.
  - unfold selectImage, selectImage_warning.
    destruct (shared.looksLikeWindowsImage (path image));
      [|destruct (negb (hasMBR image))];
      repeat match goal with
             | |- context [truthy ?m] => destruct (truthy m)
             end; simpl; rewrite Hrej; simpl;
      (eexists; split; [reflexivity || (symmetry; apply app_nil_r)|]);
      intros message data Hin; apply list_elem_of_In in Hin; simpl in Hin;
      repeat destruct Hin as [Hin|Hin]; try done;
      injection Hin as <- <-; discriminate.
  - intros Hwin Hmbr Hmsg%truthy_Some.
    by rewrite warning_selectImage, Hwin, Hmbr, Hmsg.
Qed.

(** X9. When the source cannot be opened (its inner source, its
    metadata or its partition table is refused with an error),
    [selectImageByPath] shows the user error "Error opening image"
    for the base name of the path, logs the exception, and selects
    nothing: selection, warning and [afterSelected] are untouched. *)
Theorem selectImageByPath_open_failure (options : SourceOptions) (w : World)
    (source : sourceDestination.SourceDestination) (e : JsError) :
  let tested := (resolveImagePath (imagePath options) w).1 in
  openSource tested (SourceType options) = Some source →
  (sourceDestination.getInnerSource source = Throw e
   ∨ ∃ inner,
       sourceDestination.getInnerSource source = Ok inner
       ∧ (sourceDestination.getMetadata inner = Throw e
          ∨ ∃ sdkData,
              sourceDestination.getMetadata inner = Ok sdkData
              ∧ sourceDestination.getPartitionTable inner = Throw e)) →
  let w' := selectImageByPath options w in
  shownErrors w'
  = shownErrors w
    ++ [errors.createUserError "Error opening image"
          (shared.error_openImage (shared.path_basename tested) (message e))]
  ∧ last (analyticsLog w') = Some (LogException e)
  ∧ selection w' = selection w
  ∧ warning w' = warning w
  ∧ afterSelectedCalls w' = afterSelectedCalls w
  ∧ reported w' = reported w.
Proof.
  intros tested Hopen Hfail w'. subst w'.
  assert (Hthrow : openedMetadata source tested = Throw e).
  { unfold openedMetadata.
    destruct Hfail as [-> | (inner & -> & Hmeta)]; [done|]. simpl.
    by rewrite (getMetadata_rejects inner tested e Hmeta). }
  rewrite selectImageByPath_unfold. fold tested. rewrite Hopen, Hthrow.
  destruct (resolveImagePath_frame (imagePath options) w)
    as (Hsel & Hwarn & Herr & Hrep & Hafter & _).
  simpl. rewrite Hsel, Hwarn, Herr, Hrep, Hafter.
  split_and!; try done. apply last_snoc.
Qed.

End SourceSelectorEdges.

Section SourceSelectorSelected.
Context `{store : selectionState.Interface, sdk : sourceDestination.Interface,
          platform : shared.Interface, parent : props.Interface}
        `{!selectionState.Laws}.
Import SourceSelector.

Lemma getMetadata_Ok (source : sourceDestination.SourceDestination)
    (sourcePath : string) (sdkData : sourceDestination.Metadata)
    (table : option PartitionTable) :
  sourceDestination.getMetadata source = Ok sdkData →
  sourceDestination.getPartitionTable source = Ok table →
  getMetadata source sourcePath
  = Ok (mkSourceMetadata sdkData (bool_decide (is_Some table))
          (tablePartitions <$> table) sourcePath None).
Proof.
  intros Hdata Htable. unfold getMetadata. rewrite Hdata. simpl.
  rewrite Htable. simpl. by destruct table.
Qed.

(** X11. When the source opens and the store takes the image,
    [selectImageByPath] leaves as the selected image the SDK's
    metadata with [path] the path that was tested, [extension] the
    extension of that path without its dot, and [hasMBR] telling
    whether the SDK found a partition table.  For a path that does
    not look like a Windows image, the "Missing partition table"
    warning is set when there is no table and no warning is set when
    there is one. *)
Theorem selectImageByPath_selects (options : SourceOptions) (w : World)
    (source inner : sourceDestination.SourceDestination)
    (sdkData : sourceDestination.Metadata) (table : option PartitionTable)
    (selection' : selectionState.Store) :
  let tested := (resolveImagePath (imagePath options) w).1 in
  let metadata :=
    mkSourceMetadata sdkData (bool_decide (is_Some table))
      (tablePartitions <$> table) tested
      (Some (slice1 (shared.path_extname tested))) in
  openSource tested (SourceType options) = Some source →
  sourceDestination.getInnerSource source = Ok inner →
  sourceDestination.getMetadata inner = Ok sdkData →
  sourceDestination.getPartitionTable inner = Ok table →
  selectionState.selectImage metadata (selection w) = Ok selection' →
  let w' := selectImageByPath options w in
  selection w' = selection'
  ∧ selectionState.getImage (selection w') = Some metadata
  ∧ (shared.looksLikeWindowsImage tested = false →
     (table = None →
      shared.warning_missingPartitionTable ≠ "" →
      warning w'
      = Some (mkWarning shared.warning_missingPartitionTable
                (Some "Missing partition table")))
     ∧ (is_Some table → warning w' = warning w)).
Proof.
  intros tested metadata Hopen Hinner Hdata Htable Hstore w'. subst w'.
  assert (Hmeta : openedMetadata source tested = Ok metadata).
  { unfold openedMetadata. rewrite Hinner. simpl.
    by rewrite (getMetadata_Ok inner tested sdkData table Hdata Htable). }
  rewrite selectImageByPath_unfold. fold tested. rewrite Hopen, Hmeta.
  destruct (resolveImagePath_frame (imagePath options) w)
    as (Hsel & Hwarn & _).
  set (w1 := (resolveImagePath (imagePath options) w).2) in *.
  assert (Hselected : selection (selectImage metadata w1) = selection').
  { by rewrite selection_selectImage, Hsel, Hstore. }
  destruct (afterSelected_or_handleError_frame
              "Error opening image" (shared.path_basename tested)
              (mkSourceOptions tested (SourceType options))
              (selectImage metadata w1)) as (_ & _ & Hs & Hw & _).
  unfold closeSource. cbn [selection warning]. rewrite Hs, Hw. split_and!.
  - done.
  - rewrite Hselected.
    by apply (selectionState.getImage_selectImage (selection w)).
  - intros Hwin. rewrite warning_selectImage. subst metadata.
    cbn [path hasMBR]. rewrite Hwin. split.
    + intros -> Hmsg%truthy_Some.
      rewrite bool_decide_eq_false_2 by apply is_Some_None.
      cbn [negb]. by rewrite Hmsg.
    + intros Hsome. rewrite bool_decide_eq_true_2 by done.
      cbn [negb]. exact Hwarn.
Qed.

End SourceSelectorSelected.

Section SourceSelectorDrive.
Context `{store : selectionState.Interface, sdk : sourceDestination.Interface,
          platform : shared.Interface, parent : props.Interface}
        `{images : !selectionStateImage.Interface, blocks : !blockDevice.Interface}.
Import SourceSelector SourceSelectorFlows.

Lemma getMetadata_path (source : sourceDestination.SourceDestination)
    (sourcePath : string) (metadata : SourceMetadata) :
  getMetadata source sourcePath = Ok metadata →
  path metadata = sourcePath ∧ extension metadata = None.
Proof.
  unfold getMetadata.
  destruct (sourceDestination.getMetadata source); simpl; [|done].
  destruct (sourceDestination.getPartitionTable source) as [[table|]|]; simpl;
    intros [= <-]; done.
Qed.

(** X12. [selectDriveAsImage] goes by the device path of the drive's
    source, or by its device when there is no device path.  It closes
    the source in every case.  When the metadata is read, the image
    handed on has that path and no extension, and [afterSelected] is
    called with that path and the block-device type (an error it
    throws is shown as "Error opening drive"); when reading fails,
    the user error "Error opening drive" names the whole path and
    nothing is selected. *)
Theorem selectDriveAsImage_outcome (drive : Drive) (w : World) :
  let source := blockDevice.newBlockDevice drive in
  let devicePath := orElse (blockDevice.devicePath source) (blockDevice.device source) in
  let w' := selectDriveAsImage drive w in
  closedSources w' = closedSources w ++ [source]
  ∧ match getMetadata source devicePath with
    | Ok metadata =>
        path metadata = devicePath
        ∧ extension metadata = None
        ∧ selection w' = selection (selectImage metadata w)
        ∧ afterSelectedCalls w'
          = afterSelectedCalls w ++ [mkSourceOptions devicePath BlockDevice]
        ∧ match props.afterSelected (mkSourceOptions devicePath BlockDevice) with
          | Ok _ => shownErrors w' = shownErrors w
          | Throw error =>
              shownErrors w'
              = shownErrors w
                ++ [errors.createUserError "Error opening drive"
                      (shared.error_openImage devicePath (message error))]
          end
    | Throw error =>
        shownErrors w'
        = shownErrors w
          ++ [errors.createUserError "Error opening drive"
                (shared.error_openImage devicePath (message error))]
        ∧ selection w' = selection w
        ∧ warning w' = warning w
        ∧ afterSelectedCalls w' = afterSelectedCalls w
    end.
Proof.
  cbv zeta. unfold selectDriveAsImage.
  set (source := blockDevice.newBlockDevice drive).
  set (devicePath := orElse _ _).
  destruct (getMetadata source devicePath) as [metadata|error] eqn:Hmeta.
  - destruct (afterSelected_or_handleError_frame
                "Error opening drive" devicePath
                (mkSourceOptions devicePath BlockDevice)
                (selectImage metadata w)) as (Hafter & Herr & Hsel & _ & Hclosed).
    destruct (selectImage_frame metadata w) as (Herr' & Hafter' & Hclosed').
    destruct (getMetadata_path _ _ _ Hmeta) as [Hpath Hext].
    unfold closeSource.
    cbn [closedSources selection afterSelectedCalls shownErrors].
    rewrite Hafter, Herr, Hsel, Hclosed, Herr', Hafter', Hclosed'.
    split_and!; try done.
    destruct (props.afterSelected _); by rewrite ?app_nil_r.
  - done.
Qed.

(** X13. A URL with an unsupported protocol is refused only after it
    has been stored: pressing the button of the [URLSelector] with a
    non-empty URL that starts with neither [https://] nor [http://]
    leaves that URL in the stored list of recent URLs, shows the
    "Unsupported protocol" error, selects nothing and closes the
    selector. *)
Theorem URLSelector_submit_unsupported (JSON_stringify : list string → string)
    (recentImages : list string) (imageURL : string)
    (localStorage : gmap string string) (v : View) :
  wellFormedRecent recentImages →
  imageURL ≠ "" →
  let tested := (resolveImagePath imageURL (world v)).1 in
  ¬ startsWithText tested "https://" →
  ¬ startsWithText tested "http://" →
  let after := URLSelector_submit JSON_stringify recentImages imageURL localStorage v in
  (∃ kept,
     getItem after.1 recentUrlImagesKey = Some (JSON_stringify kept)
     ∧ imageURL ∈ kept)
  ∧ shownErrors (world after.2)
    = shownErrors (world v)
      ++ [errors.createUserError "Unsupported protocol"
            shared.error_unsupportedProtocol]
  ∧ selection (world after.2) = selection (world v)
  ∧ afterSelectedCalls (world after.2) = afterSelectedCalls (world v)
  ∧ showURLSelector after.2 = false.
Proof.
  intros Hwf Hurl tested Hs Hp after. subst after. simpl. split.
  - exists (sanitizedRecentUrls recentImages imageURL). split.
    + unfold URLSelector_done. rewrite getItem_setRecentUrlImages.
      by rewrite normalizeRecentUrlImages_fixed
        by apply normalizeRecentUrlImages_wellFormed.
    + destruct (decide (imageURL ∈ recentImages)) as [Hin|Hfresh].
      * by rewrite sanitizedRecentUrls_present.
      * apply last_Some_elem_of.
        by apply sanitizedRecentUrls_fresh_last.
  - unfold urlSelectorDone. rewrite (truthy_Some _ Hurl). simpl.
    rewrite selectImageByPath_unfold. simpl. fold tested.
    rewrite (openSource_Http_None _ Hs Hp).
    destruct (resolveImagePath_frame imageURL (world v))
      as (Hsel & _ & Herr & _ & Hafter & _).
    simpl. by rewrite Hsel, Herr, Hafter.
Qed.

(** X14. The two buttons of the warning dialog, after [selectImage]
    has put an image in a store that forgets the image on
    [deselectImage]: "Continue" keeps the image, cancelling removes
    it; both clear the warning. *)
Theorem warning_dialog_choice `{!selectionState.Laws}
    (image : SourceMetadata) (v : View) (selection' : selectionState.Store) :
  (∀ s, selectionState.getImage (selectionStateImage.deselectImage s) = None) →
  selectionState.selectImage image (selection (world v)) = Ok selection' →
  let shown := withWorld (selectImage image (world v)) v in
  (warning (world (warningDone shown)) = None
   ∧ selectionState.getImage (selection (world (warningDone shown))) = Some image)
  ∧ (warning (world (warningCancel shown)) = None
     ∧ selectionState.getImage (selection (world (warningCancel shown))) = None).
Proof.
  intros Hforget Hstore. cbv zeta. unfold warningDone, warningCancel, reselectImage.
  simpl. rewrite selection_selectImage, Hstore.
  split_and!; try done.
  by apply (selectionState.getImage_selectImage (selection (world v))).
Qed.

End SourceSelectorDrive.

(** ** More on [selectAllTargets]: what is logged, and calling it again *)

Section TargetSelectorEvents.
Context `{store : selectionState.Interface} `{!selectionState.Laws}.
Import TargetSelector.

Lemma isDriveSelected_selectAllTargets (modalTargets : list Drive) (w : World)
    (d : string) :
  selectionState.isDriveSelected d (selection (selectAllTargets modalTargets w)) = true
  ↔ d ∈ devices modalTargets.
Proof.
  unfold selectAllTargets.
  rewrite isDriveSelected_select_loop, isDriveSelected_deselect_loop.
  split; [|tauto]. intros [[Hsel Hkept]|Hin]; [|done].
  destruct (decide (d ∈ devices modalTargets)) as [|Hout]; [done|].
  exfalso. apply Hkept.
  apply selectionState.selected_listed in Hsel as (drive & Hdrive & <-).
  apply elem_of_devices. exists drive. split; [|done].
  apply list_elem_of_In, filter_In. split; [by apply list_elem_of_In|].
  apply negb_true_iff, bool_decide_eq_false.
  by rewrite findTarget_is_Some.
Qed.

(** The first loop logs one event for each drive it goes over. *)
Lemma analyticsLog_deselect_loop (deselected : list Drive) (w : World) :
  analyticsLog (fold_left deselectOne deselected w)
  = analyticsLog w ++ (toggled true <$> deselected).
Proof.
  revert w. induction deselected as [|drive deselected IH]; intros w; simpl.
  - by rewrite app_nil_r.
  - rewrite IH. unfold deselectOne, deselectDrive, logEvent. simpl.
    by rewrite <- app_assoc.
Qed.

(** The second loop logs an event only for a drive whose device was
    not selected when the loop began. *)
Lemma analyticsLog_select_loop (modalTargets : list Drive) (w : World) :
  ∃ events,
    analyticsLog (fold_left selectOne modalTargets w) = analyticsLog w ++ events
    ∧ ∀ event, event ∈ events →
        ∃ drive, event = toggled false drive
                 ∧ drive ∈ modalTargets
                 ∧ selectionState.isDriveSelected (device drive) (selection w) = false.
Proof.
  revert w. induction modalTargets as [|drive modalTargets IH]; intros w; simpl.
  - exists []. split; [by rewrite app_nil_r | by intros ? ?%elem_of_nil].
  - destruct (IH (selectOne w drive)) as (events & Hlog & Hevents).
    assert (Hmono : ∀ d,
      selectionState.isDriveSelected d (selection (selectOne w drive)) = false →
      selectionState.isDriveSelected d (selection w) = false).
    { intros d Hd. apply not_true_is_false. intros Hsel.
      apply not_true_iff_false in Hd. apply Hd.
      unfold selectOne, selectDrive. simpl.
      apply selectionState.isDriveSelected_selectDrive. right.
      by destruct (negb _). }
    assert (Hrest : ∀ event, event ∈ events →
      ∃ drive', event = toggled false drive'
                ∧ drive' ∈ drive :: modalTargets
                ∧ selectionState.isDriveSelected (device drive') (selection w) = false).
    { intros event (drive' & -> & Hin & Hd)%Hevents.
      exists drive'. split_and!; [done | by right | by apply Hmono]. }
    rewrite Hlog. unfold selectOne, selectDrive, logEvent.
    destruct (selectionState.isDriveSelected (device drive) (selection w)) eqn:Hsel;
      simpl.
    + exists events. split; [done | exact Hrest].
    + exists (toggled false drive :: events). split; [by rewrite <- app_assoc|].
      intros event [->|Hin]%elem_of_cons; [|by apply Hrest].
      exists drive. split_and!; [done | by left | done].
Qed.

(** When every drive of the loop is selected already, the second loop
    logs nothing. *)
Lemma analyticsLog_select_loop_selected (modalTargets : list Drive) (w : World) :
  (∀ drive, drive ∈ modalTargets →
     selectionState.isDriveSelected (device drive) (selection w) = true) →
  analyticsLog (fold_left selectOne modalTargets w) = analyticsLog w.
Proof.
  revert w. induction modalTargets as [|drive modalTargets IH]; intros w Hall; simpl.
  - done.
  - assert (Hdrive : selectionState.isDriveSelected (device drive) (selection w) = true)
      by (apply Hall; by left).
    rewrite IH.
    + unfold selectOne, selectDrive. by rewrite Hdrive.
    + intros drive' Hin. unfold selectOne, selectDrive. rewrite Hdrive. simpl.
      apply selectionState.isDriveSelected_selectDrive. right. apply Hall. by right.
Qed.

(** X16. [selectAllTargets] logs "Toggle drive" events for changes
    only: with [previouslySelected] true for a selected drive of the
    store whose device no target has, with [previouslySelected] false
    for a target whose device was not selected before the call, and
    nothing else. *)
Theorem selectAllTargets_events (modalTargets : list Drive) (w : World) :
  ∃ events,
    analyticsLog (selectAllTargets modalTargets w) = analyticsLog w ++ events
    ∧ ∀ event, event ∈ events →
        ∃ drive,
          (event = LogEvent "Toggle drive" (ToggleDriveData drive true)
           ∧ drive ∈ selectionState.getSelectedDrives (selection w)
           ∧ device drive ∉ devices modalTargets)
          ∨ (event = LogEvent "Toggle drive" (ToggleDriveData drive false)
             ∧ drive ∈ modalTargets
             ∧ selectionState.isDriveSelected (device drive) (selection w) = false).
Proof.
  unfold selectAllTargets.
  set (deselected := List.filter _ _).
  assert (Hdeselected : ∀ drive, drive ∈ deselected →
    drive ∈ selectionState.getSelectedDrives (selection w)
    ∧ device drive ∉ devices modalTargets).
  { intros drive [Hin Hnot]%list_elem_of_In%filter_In.
    split; [by apply list_elem_of_In|].
    apply negb_true_iff, bool_decide_eq_false in Hnot.
    by rewrite <- findTarget_is_Some. }
  destruct (analyticsLog_select_loop modalTargets (fold_left deselectOne deselected w))
    as (events & Hlog & Hevents).
  exists ((toggled true <$> deselected) ++ events). split.
  - by rewrite Hlog, analyticsLog_deselect_loop, <- app_assoc.
  - intros event [Hin|Hin]%elem_of_app.
    + apply list_elem_of_fmap in Hin as (drive & -> & Hdrive).
      exists drive. left. split; [done | by apply Hdeselected].
    + apply Hevents in Hin as (drive & -> & Hdrive & Hsel).
      exists drive. right. split_and!; [done..|].
      apply not_true_is_false. intros Hbefore.
      apply not_true_iff_false in Hsel. apply Hsel.
      apply isDriveSelected_deselect_loop. split; [done|].
      intros (drive' & Hin' & Hdev)%elem_of_devices.
      apply Hdeselected in Hin' as [_ Hout]. apply Hout.
      rewrite Hdev. apply elem_of_devices. eauto.
Qed.

(** X17. In a store whose list of selected drives shows selected
    devices only, calling [selectAllTargets] a second time with the
    same targets changes nothing: no event is logged and the same
    devices are selected. *)
Theorem selectAllTargets_again (modalTargets : list Drive) (w : World) :
  (∀ s drive,
     drive ∈ selectionState.getSelectedDrives s →
     selectionState.isDriveSelected (device drive) s = true) →
  let w1 := selectAllTargets modalTargets w in
  let w2 := selectAllTargets modalTargets w1 in
  analyticsLog w2 = analyticsLog w1
  ∧ ∀ d, selectionState.isDriveSelected d (selection w2)
         = selectionState.isDriveSelected d (selection w1).
Proof.
  intros Hlisted w1 w2. split.
  - subst w2. unfold selectAllTargets at 1.
    assert (Hnone :
      List.filter
        (λ drive, negb (bool_decide (is_Some (findTarget modalTargets drive))))
        (selectionState.getSelectedDrives (selection w1)) = []).
    { destruct (List.filter _ _) as [|drive rest] eqn:Hfilter; [done|].
      assert (Hin : In drive (drive :: rest)) by (by left).
      rewrite <- Hfilter in Hin. apply filter_In in Hin as [Hin Hnot].
      apply negb_true_iff, bool_decide_eq_false in Hnot.
      exfalso. apply Hnot, findTarget_is_Some.
      apply (proj1 (isDriveSelected_selectAllTargets modalTargets w (device drive))).
      apply Hlisted. by apply list_elem_of_In. }
    rewrite Hnone. simpl.
    apply analyticsLog_select_loop_selected.
    intros drive Hin. apply isDriveSelected_selectAllTargets.
    apply elem_of_devices. eauto.
  - intros d.
    pose proof (isDriveSelected_selectAllTargets modalTargets w d) as H1.
    pose proof (isDriveSelected_selectAllTargets modalTargets w1 d) as H2.
    fold w1 in H1. fold w2 in H2.
    destruct (selectionState.isDriveSelected d (selection w2));
      destruct (selectionState.isDriveSelected d (selection w1)); try done.
    + symmetry. apply H1, H2. done.
    + apply H2, H1. done.
Qed.

End TargetSelectorEvents.

(** ** The label of the selected drives *)

Section TargetSelectorLabelFacts.
Context `{store : selectionState.Interface}.
Import TargetSelectorLabel.

Lemma append_empty (a b : string) : a +:+ b = "" → a = "" ∧ b = "".
Proof. destruct a; simpl; [done | discriminate]. Qed.

Lemma driveLabel_nonempty (drive : Drive) : driveLabel drive ≠ "".
Proof.
  unfold driveLabel. intros [_ Hrest]%append_empty. discriminate.
Qed.

(** X15. The label of the selected drives is empty exactly when no
    drive is selected. *)
Theorem getDriveListLabel_empty (s : selectionState.Store) :
  getDriveListLabel s = "" ↔ selectionState.getSelectedDrives s = [].
Proof.
  unfold getDriveListLabel.
  destruct (selectionState.getSelectedDrives s) as [|drive drives]; [done|].
  split; [|done]. rewrite fmap_cons.
  destruct (driveLabel <$> drives) as [|label labels]; simpl.
  - intros Hlabel. destruct (driveLabel_nonempty drive Hlabel).
  - intros [Hlabel _]%append_empty. destruct (driveLabel_nonempty drive Hlabel).
Qed.

End TargetSelectorLabelFacts.

(** ** The settings dialog over time *)

Section SettingsOverTime.
Import Settings SettingsModal.

(** A toggle that is awaited with nothing else going on is one run of
    [toggleSetting]. *)
Lemma settled_started (setting : string) (options : option SettingOptions)
    (d : Dialog) :
  inFlight d = [] →
  settled 0 (started setting options d)
  = mkDialog (toggleSetting setting options (world d)) [].
Proof.
  intros Hidle. unfold settled, started. simpl. rewrite Hidle. reflexivity.
Qed.

Lemma toggleSetting_mirror (setting : string) (options : option SettingOptions)
    (w : World) :
  currentSettings w = settingsStore w →
  currentSettings (toggleSetting setting options w)
  = settingsStore (toggleSetting setting options w).
Proof.
  intros Hmirror. unfold toggleSetting, settings_set. simpl. by rewrite Hmirror.
Qed.

(** X18. When the dialog shows the settings of the store and no
    toggle is awaited, any number of toggles made one after the
    other, each awaited to its end before the next click, leaves the
    dialog showing the settings of the store, with no toggle awaited. *)
Theorem settings_dialog_mirrors_store
    (toggles : list (string * option SettingOptions)) (d : Dialog) :
  inFlight d = [] →
  currentSettings (world d) = settingsStore (world d) →
  let d' := run (oneByOne toggles) d in
  currentSettings (world d') = settingsStore (world d') ∧ inFlight d' = [].
Proof.
  cbv zeta. unfold run, oneByOne. revert d.
  induction toggles as [|[setting options] toggles IH]; intros d Hidle Hmirror;
    simpl; [done|].
  rewrite (settled_started setting options d Hidle).
  apply IH; [reflexivity|].
  exact (toggleSetting_mirror setting options (world d) Hmirror).
Qed.

Lemma settings_dialog_mirrors_store_witness :
  let d := mkDialog
             (mkWorld {[ "errorReporting" := true; "updatesEnabled" := false ]}
                {[ "errorReporting" := true; "updatesEnabled" := false ]} []) [] in
  let d' := run (oneByOne [("updatesEnabled", None); ("errorReporting", None);
                           ("updatesEnabled", None)]) d in
  currentSettings (world d') = settingsStore (world d') ∧ inFlight d' = [].
Proof.
  cbv zeta. apply settings_dialog_mirrors_store; reflexivity.
Defined.

(** X19. The same setting toggled twice, the second toggle started
    after the first was awaited to its end: the dialog gets back the
    value it had for the setting, when it had one, and is then as it
    was; the store ends with that former value of the dialog, so it
    is as it was too when it had the same value; a setting the dialog
    had no value for ends up false, not absent. *)
Theorem toggleSetting_twice (setting : string)
    (options options' : option SettingOptions) (d : Dialog) :
  inFlight d = [] →
  let value := currentSettings (world d) !! setting in
  let d2 := run [Clicked setting options; Settled 0;
                 Clicked setting options'; Settled 0] d in
  currentSettings (world d2)
  = <[setting := default false value]> (currentSettings (world d))
  ∧ settingsStore (world d2)
    = <[setting := default false value]> (settingsStore (world d))
  ∧ (∀ b, value = Some b →
       currentSettings (world d2) = currentSettings (world d)
       ∧ (settingsStore (world d) !! setting = Some b →
          settingsStore (world d2) = settingsStore (world d)))
  ∧ (value = None → currentSettings (world d2) !! setting = Some false).
Proof.
  intros Hidle. cbv zeta. unfold run. cbn [fold_left step].
  rewrite (settled_started setting options d Hidle).
  rewrite (settled_started setting options'
             (mkDialog (toggleSetting setting options (world d)) []) eq_refl).
  unfold toggleSetting, settings_set. simpl.
  rewrite lookup_insert_eq, !insert_insert_eq.
  assert (Hnot : not_value (Some (not_value (currentSettings (world d) !! setting)))
                 = default false (currentSettings (world d) !! setting)).
  { destruct (currentSettings (world d) !! setting) as [b|]; simpl;
      [apply negb_involutive | done]. }
  rewrite Hnot. split_and!; try done.
  - intros b Hb. rewrite Hb. simpl. split; [by apply insert_id|].
    intros Hstore. by apply insert_id.
  - intros ->. simpl. apply lookup_insert_eq.
Qed.

Lemma toggleSetting_twice_witness :
  let d := mkDialog
             (mkWorld {[ "errorReporting" := true ]} {[ "errorReporting" := true ]} [])
             [] in
  let d2 := run [Clicked "errorReporting" None; Settled 0;
                 Clicked "errorReporting" None; Settled 0] d in
  currentSettings (world d2) = currentSettings (world d)
  ∧ settingsStore (world d2) = settingsStore (world d).
Proof.
  cbv zeta.
  pose proof (toggleSetting_twice "errorReporting" None None
                (mkDialog
                   (mkWorld {[ "errorReporting" := true ]}
                      {[ "errorReporting" := true ]} []) [])
                eq_refl) as (_ & _ & Hback & _).
  destruct (Hback true eq_refl) as [Hdialog Hstore].
  split; [exact Hdialog | exact (Hstore eq_refl)].
Defined.

(** X10. Two toggles of different settings, the second started while
    the first is still awaited: both closures belong to the same
    render.  The store gets both negations.  The dialog ends with the
    dictionary of the toggle that is settled last, in which the other
    setting has the value it had before; on that setting the dialog
    then differs from the store. *)
Theorem toggleSetting_overlapping (first second : string)
    (options options' : option SettingOptions) (d : Dialog) :
  inFlight d = [] →
  first ≠ second →
  let shown := currentSettings (world d) in
  let inOrder := run [Clicked first options; Clicked second options';
                      Settled 0; Settled 0] d in
  let reversed := run [Clicked first options; Clicked second options';
                       Settled 1; Settled 0] d in
  (settingsStore (world inOrder) !! first = Some (not_value (shown !! first))
   ∧ settingsStore (world inOrder) !! second = Some (not_value (shown !! second))
   ∧ currentSettings (world inOrder) = <[second := not_value (shown !! second)]> shown
   ∧ currentSettings (world inOrder) !! first ≠ settingsStore (world inOrder) !! first)
  ∧ (settingsStore (world reversed) = settingsStore (world inOrder)
     ∧ currentSettings (world reversed) = <[first := not_value (shown !! first)]> shown
     ∧ currentSettings (world reversed) !! second
       ≠ settingsStore (world reversed) !! second).
Proof.
  intros Hidle Hne. cbv zeta. unfold run, step, settled, started. simpl.
  rewrite Hidle. simpl. unfold settings_set.
  assert (Hflip : ∀ value : option bool, value ≠ Some (not_value value)).
  { intros [[]|]; simpl; discriminate. }
  split_and!.
  - by rewrite lookup_insert_ne, lookup_insert_eq.
  - by rewrite lookup_insert_eq.
  - done.
  - rewrite (lookup_insert_ne _ second first) by done.
    rewrite (lookup_insert_ne _ second first) by done.
    rewrite lookup_insert_eq. apply Hflip.
  - done.
  - done.
  - rewrite (lookup_insert_ne _ first second) by done.
    rewrite lookup_insert_eq. apply Hflip.
Qed.

Lemma toggleSetting_overlapping_witness :
  let d := mkDialog
             (mkWorld {[ "errorReporting" := true; "updatesEnabled" := true ]}
                {[ "errorReporting" := true; "updatesEnabled" := true ]} []) [] in
  let d' := run [Clicked "errorReporting" None; Clicked "updatesEnabled" None;
                 Settled 0; Settled 0] d in
  currentSettings (world d') !! "errorReporting"
  ≠ settingsStore (world d') !! "errorReporting".
Proof.
  cbv zeta.
  refine (proj2 (proj2 (proj2 (proj1
            (toggleSetting_overlapping "errorReporting" "updatesEnabled" None None
               (mkDialog
                  (mkWorld {[ "errorReporting" := true; "updatesEnabled" := true ]}
                     {[ "errorReporting" := true; "updatesEnabled" := true ]} []) [])
               eq_refl _))))).
  discriminate.
Defined.

End SettingsOverTime.

(** ** The further properties on concrete inputs *)

Section MoreRuns.
Existing Instance ReferenceStore.interface.
Existing Instance SampleSdk.interface.
Existing Instance SamplePlatform.interface.
Existing Instance SampleParent.interface.
Existing Instance SampleImages.interface.
Existing Instance SampleBlockDevice.interface.
Existing Instance ReferenceStore_laws.

Lemma selectImage_rejected_witness :
  SourceSelector.reported (SourceSelector.selectImage noPathImage idleSelector)
  = [mkError "Invalid image path"]
  ∧ SourceSelector.warning (SourceSelector.selectImage noPathImage idleSelector)
    = Some (mkWarning "It looks like this is not a bootable image."
              (Some "Missing partition table"))
  ∧ ReferenceStore.image
      (SourceSelector.selection (SourceSelector.selectImage noPathImage idleSelector))
    = None.
Proof.
  pose proof (selectImage_rejected noPathImage idleSelector
                (mkError "Invalid image path") eq_refl) as (Hsel & Hrep & _ & Hwarn).
  split_and!.
  - exact Hrep.
  - apply Hwarn; [reflexivity | reflexivity | discriminate].
  - by rewrite Hsel.
Defined.

Lemma selectImageByPath_open_failure_witness :
  SourceSelector.shownErrors
    (SourceSelector.selectImageByPath
       (mkSourceOptions "/images/missing.img" File) idleSelector)
  = [errors.createUserError "Error opening image"
       "Something went wrong while opening missing.img: ENOENT: no such file or directory"].
Proof.
  refine (proj1 (selectImageByPath_open_failure
                   (mkSourceOptions "/images/missing.img" File) idleSelector
                   "/images/missing.img"
                   (mkError "ENOENT: no such file or directory") _ _)).
  - reflexivity.
  - left. reflexivity.
Defined.

Lemma selectImageByPath_selects_witness :
  ReferenceStore.image
    (SourceSelector.selection
       (SourceSelector.selectImageByPath
          (mkSourceOptions "/images/raw.bin" File) idleSelector))
  = Some rawImage.
Proof.
  refine (proj1 (proj2 (selectImageByPath_selects
                   (mkSourceOptions "/images/raw.bin" File) idleSelector
                   "/images/raw.bin" "/images/raw.bin"
                   (sourceDestination.mkMetadata (Some "/images/raw.bin")
                      (Some 4194304%Z) None None)
                   None (ReferenceStore.mkState (Some rawImage) [])
                   _ _ _ _ _))); reflexivity.
Defined.

Lemma URLSelector_submit_unsupported_witness :
  let after :=
    SourceSelectorFlows.URLSelector_submit SampleJson.stringify
      ["http://h/a.img"] "ftp://example.org/debian.img" ∅ urlSelectorOpen in
  (∃ kept,
     getItem after.1 recentUrlImagesKey = Some (SampleJson.stringify kept)
     ∧ "ftp://example.org/debian.img" ∈ kept)
  ∧ SourceSelectorFlows.showURLSelector after.2 = false.
Proof.
  pose proof (URLSelector_submit_unsupported SampleJson.stringify
                ["http://h/a.img"] "ftp://example.org/debian.img" ∅ urlSelectorOpen)
    as Hsubmit.
  cbv zeta in *. destruct Hsubmit as (Hkept & _ & _ & _ & Hclosed).
  - split_and!; [simpl; lia | compute_done | compute_done].
  - discriminate.
  - apply startsWith_false. reflexivity.
  - apply startsWith_false. reflexivity.
  - split; [exact Hkept | exact Hclosed].
Defined.

Lemma warning_dialog_choice_witness :
  let shown :=
    SourceSelectorFlows.withWorld
      (SourceSelector.selectImage rawImage idleSelector) urlSelectorOpen in
  ReferenceStore.image
    (SourceSelector.selection
       (SourceSelectorFlows.world (SourceSelectorFlows.warningDone shown)))
  = Some rawImage
  ∧ ReferenceStore.image
      (SourceSelector.selection
         (SourceSelectorFlows.world (SourceSelectorFlows.warningCancel shown)))
    = None.
Proof.
  pose proof (warning_dialog_choice rawImage urlSelectorOpen
                (ReferenceStore.mkState (Some rawImage) [])
                (λ s, eq_refl) eq_refl) as [[_ Hdone] [_ Hcancel]].
  split; [exact Hdone | exact Hcancel].
Defined.

Lemma selectAllTargets_events_witness :
  ∃ events,
    TargetSelector.analyticsLog
      (TargetSelector.selectAllTargets pickedTargets twoSelected)
    = TargetSelector.analyticsLog twoSelected ++ events
    ∧ ∀ event, event ∈ events →
        ∃ drive,
          (event = LogEvent "Toggle drive" (ToggleDriveData drive true)
           ∧ drive ∈ ReferenceStore.drives (TargetSelector.selection twoSelected)
           ∧ device drive ∉ devices pickedTargets)
          ∨ (event = LogEvent "Toggle drive" (ToggleDriveData drive false)
             ∧ drive ∈ pickedTargets
             ∧ ReferenceStore.isDriveSelected (device drive)
                 (TargetSelector.selection twoSelected) = false).
Proof.
  exact (selectAllTargets_events pickedTargets twoSelected).
Defined.

Lemma selectAllTargets_again_witness :
  let w1 := TargetSelector.selectAllTargets pickedTargets twoSelected in
  TargetSelector.analyticsLog (TargetSelector.selectAllTargets pickedTargets w1)
  = TargetSelector.analyticsLog w1.
Proof.
  refine (proj1 (selectAllTargets_again pickedTargets twoSelected _)).
  intros s drive Hin. apply ReferenceStore_isDriveSelected. eauto.
Defined.

Example selectImageByPath_parent_throws :
  let w := @SourceSelector.selectImageByPath
             ReferenceStore.interface SampleSdk.interface SamplePlatform.interface
             SampleParent.failing
             (mkSourceOptions "/images/debian.img" File) idleSelector in
  SourceSelector.afterSelectedCalls w = [mkSourceOptions "/images/debian.img" File]
  ∧ SourceSelector.shownErrors w
    = [errors.createUserError "Error opening image"
         "Something went wrong while opening debian.img: Cannot read property of undefined"]
  ∧ ReferenceStore.image (SourceSelector.selection w) = Some mbrImage
  ∧ SourceSelector.closedSources w = ["/images/debian.img"].
Proof. cbv zeta. split_and!; reflexivity. Qed.

Example selectImageListener_run :
  SourceSelector.selectImageListener "https://example.org/debian.img" idleSelector
  = Throw (mkError "this.selectImageByPath is not a function").
Proof. reflexivity. Qed.

Example selectDriveAsImage_run :
  let w := SourceSelectorFlows.selectDriveAsImage
             (mkDrive "/dev/sdb" "Kingston" "/dev/sdb") idleSelector in
  SourceSelector.afterSelectedCalls w
  = [mkSourceOptions "/dev/disk/by-id/usb-Kingston" BlockDevice]
  ∧ SourceSelector.closedSources w = ["/dev/sdb"]
  ∧ (path <$> ReferenceStore.image (SourceSelector.selection w))
    = Some "/dev/disk/by-id/usb-Kingston".
Proof. cbv zeta. split_and!; reflexivity. Qed.

Example getDriveListLabel_run :
  TargetSelectorLabel.getDriveListLabel (TargetSelector.selection twoSelected)
  = "SanDisk (/dev/sda)" +:+ TargetSelectorLabel.newline +:+ "Kingston (/dev/sdb)".
Proof. reflexivity. Qed.

End MoreRuns.
